(** * Tag catalog and search engine of the recipe dictionary

    A shallow embedding of [queshi.py] (resource lookup, [load_dishes],
    [search_by_tag]) and of the tag vocabulary and suggestion code of
    [gui_queshi.py] ([_update_tag_completer], [_show_tag_popup]), with the
    properties of the specification stated and settled against it. *)

From stdpp Require Import gmap list sorting.
From stdpp Require Import pretty.
From Stdlib Require Import NArith String Ascii.
From Stdlib Require Import PrimFloat FloatOps SpecFloat Uint63.

Local Open Scope N_scope.

(** ** Python text

    A Python [str] is a sequence of Unicode code points. *)

Abbreviation pystr := (list N).

(** An ASCII literal as a Python string. *)
Definition py (s : string) : pystr := N_of_ascii <$> list_ascii_of_string s.

(** The parts of the Unicode character database the program reaches through
    [re], [str.strip] and [str.lower]. *)
Class Unicode := {
  (** [str.isalnum] on one code point *)
  isalnum : N → bool;
  (** the whitespace test of [str.strip()] *)
  isspace : N → bool;
  (** [str.lower()] *)
  lower : pystr → pystr
}.

(** ** Exceptions and results *)

Inductive exn :=
| KeyError (key : pystr)
| TypeError
| NameError
| OSError
| SyntaxError
| ValueError
(** the error of the specification; no statement of the program raises it *)
| LoadError (path : pystr) (cause : exn).

Inductive result (A : Type) :=
| Ok (a : A)
| Raise (e : exn).
Arguments Ok {A} a.
Arguments Raise {A} e.

Global Instance result_ret : MRet result := λ A a, Ok a.
Global Instance result_bind : MBind result := λ A B f m,
  match m with Ok a => f a | Raise e => Raise e end.

(** ** Values of the [tags] field *)

(** An object that is neither a string nor iterable: [None], the float [nan]
    that pandas stores where a record has no such key, or any other such
    object (a number, say), given by the text [str()] returns for it. *)
Inductive obj :=
| ONone
| ONaN
| OOther (text : pystr).

(** An element of a sequence. *)
Inductive elem :=
| EStr (s : pystr)
| EObj (o : obj).

(** A cell of the [tags] column: a string, a sequence (list or tuple) or an
    object that is neither. *)
Inductive cell :=
| CStr (s : pystr)
| CSeq (l : list elem)
| CObj (o : obj).

(** [str(o)] *)
Definition str_obj (o : obj) : pystr :=
  match o with
  | ONone => py "None"
  | ONaN => py "nan"
  | OOther text => text
  end.

(** [str(t)] for an element [t] of a sequence *)
Definition str_elem (t : elem) : pystr :=
  match t with EStr s => s | EObj o => str_obj o end.

(** ** The frame

    A record of [dishes] is a Python dict; [pd.DataFrame(dishes)] keeps the
    records in order, has the union of their keys as columns, and reads
    [nan] where a record lacks a column's key. *)

Abbreviation dish := (gmap pystr cell).
Abbreviation DataFrame := (list dish).

Definition pd_DataFrame (dishes : list dish) : DataFrame := dishes.

Definition columns (df : DataFrame) : gset pystr := ⋃ (dom <$> df).

(** [df.empty]: no rows or no columns *)
Definition df_empty (df : DataFrame) : bool :=
  bool_decide (df = []) || bool_decide (columns df = ∅).

(** the cell of row [d] in column [key] *)
Definition at_column (key : pystr) (d : dish) : cell :=
  default (CObj ONaN) (d !! key).

(** [df[key]] for a column label *)
Definition getitem (df : DataFrame) (key : pystr) : result (list cell) :=
  if decide (key ∈ columns df) then Ok (at_column key <$> df)
  else Raise (KeyError key).

(** [df[mask]] for a boolean mask *)
Fixpoint boolean_index (df : DataFrame) (mask : list bool) : DataFrame :=
  match df, mask with
  | d :: df', b :: mask' =>
      if b then d :: boolean_index df' mask' else boolean_index df' mask'
  | _, _ => []
  end.

(** ** [tag in tags] *)

Fixpoint startswith (s p : pystr) {struct p} : bool :=
  match p, s with
  | [], _ => true
  | _ :: _, [] => false
  | a :: p', b :: s' => (a =? b) && startswith s' p'
  end.

(** [p in s] for two strings: [p] occurs in [s] as a substring *)
Fixpoint str_contains (s p : pystr) : bool :=
  startswith s p ||
  match s with
  | [] => false
  | _ :: s' => str_contains s' p
  end.

(** [t == tag] for a string [tag] *)
Definition elem_eq_str (tag : pystr) (t : elem) : bool :=
  match t with
  | EStr s => bool_decide (s = tag)
  | EObj _ => false
  end.

(** [tag in tags] *)
Definition py_in (tag : pystr) (tags : cell) : result bool :=
  match tags with
  | CStr s => Ok (str_contains s tag)
  | CSeq l => Ok (existsb (elem_eq_str tag) l)
  | CObj _ => Raise TypeError
  end.

(** ** Text operations of the vocabulary code *)

Section text.
Context `{U : Unicode}.

(** a word character of [re]: alphanumeric or the underscore *)
Definition is_word (c : N) : bool := isalnum c || (c =? 95).

(** [re.split] on a pattern matching the non-empty runs of characters
    that satisfy [sep]: the pieces between the maximal runs, the empty
    pieces at either end included. *)
Fixpoint split_runs (sep : N → bool) (s : pystr) : list pystr :=
  match s with
  | [] => [[]]
  | c :: s' =>
      if sep c then
        match s' with
        | c' :: _ => if sep c' then split_runs sep s' else [] :: split_runs sep s'
        | [] => [] :: split_runs sep s'
        end
      else
        match split_runs sep s' with
        | p :: ps => (c :: p) :: ps
        | [] => [[c]]
        end
  end.

(** [re.split(r'\W+', s)] *)
Definition re_split_W (s : pystr) : list pystr :=
  split_runs (λ c, negb (is_word c)) s.

Fixpoint lstrip (s : pystr) : pystr :=
  match s with
  | c :: s' => if isspace c then lstrip s' else s
  | [] => []
  end.

Definition rstrip (s : pystr) : pystr := reverse (lstrip (reverse s)).

(** [s.strip()] *)
Definition strip (s : pystr) : pystr := rstrip (lstrip s).
End text.

(** ** Order of strings and [sorted] *)

(** [a < b] on strings: by code point, a proper prefix first *)
Fixpoint str_ltb (a b : pystr) : bool :=
  match a, b with
  | _, [] => false
  | [], _ :: _ => true
  | x :: a', y :: b' => (x <? y) || ((x =? y) && str_ltb a' b')
  end.

Definition str_lt (a b : pystr) : Prop := str_ltb a b = true.
Definition str_le (a b : pystr) : Prop := str_ltb b a = false.

Global Instance str_le_dec a b : Decision (str_le a b).
Proof. unfold str_le. apply _. Defined.

(** [sorted(tags_set)] *)
Definition sorted (tags_set : gset pystr) : list pystr :=
  merge_sort str_le (elements tags_set).

(** ** The vocabulary of [_update_tag_completer] *)

Section vocabulary.
Context `{U : Unicode}.

(** the pieces of a string-valued field that reach [tags_set] *)
Definition add_parts (tags_set : gset pystr) (parts : list pystr) : gset pystr :=
  foldl (λ acc p, let p := strip p in
                  if bool_decide (p = []) then acc else {[p]} ∪ acc)
        tags_set parts.

(** one round of the loop over the column *)
Definition add_item (tags_set : gset pystr) (item : cell) : gset pystr :=
  match item with
  | CObj ONone => tags_set
  | CStr s => add_parts tags_set (re_split_W s)
  | CSeq l => foldl (λ acc t, {[str_elem t]} ∪ acc) tags_set l
  | CObj o => {[str_obj o]} ∪ tags_set
  end.

(** the list [tags] that [_update_tag_completer] computes and keeps as
    [self._tag_list] *)
Definition tag_list (checkpoint : option DataFrame) : list pystr :=
  match checkpoint with
  | None => []
  | Some df =>
      if df_empty df then []
      else
        let tags_set :=
          match getitem df (py "tags") with
          | Ok col => foldl add_item ∅ col
          | Raise _ => ∅
          end in
        sorted tags_set
  end.

(** the normalized tag set of one record *)
Definition normalized_tags (d : dish) : gset pystr :=
  add_item ∅ (at_column (py "tags") d).
End vocabulary.

(** ** The process and the file system, as [queshi.py] reads them *)

Record Env := {
  (** [getattr(sys, 'frozen', False)] *)
  frozen : bool;
  (** [getattr(sys, '_MEIPASS', None)] *)
  _MEIPASS : option pystr;
  (** [os.path.dirname(sys.executable)] *)
  executable_dir : pystr;
  (** [os.path.dirname(__file__)], which raises where [__file__] is not set *)
  file_dir : result pystr;
  (** [os.getcwd()] *)
  getcwd : pystr;
  (** [os.path.join] *)
  path_join : pystr → pystr → pystr;
  (** [os.path.exists] *)
  path_exists : pystr → bool;
  (** [open(path, 'r', encoding='utf-8')] and [f.read()] *)
  read_text : pystr → result pystr;
  (** [exec(content, ns)] and then the binding of [dishes] in [ns], if any *)
  exec_content : pystr → result (option (list dish))
}.

(** a string is true when it is not empty *)
Definition truthy (s : pystr) : bool := negb (bool_decide (s = [])).

(** the loop of [_find_resource] over the candidates *)
Fixpoint first_existing (env : Env) (name : pystr) (candidates : list pystr)
  : option pystr :=
  match candidates with
  | [] => None
  | d :: rest =>
      if truthy d then
        let p := path_join env d name in
        if path_exists env p then Some p else first_existing env name rest
      else first_existing env name rest
  end.

(** the list [candidates] that [_find_resource] builds *)
Definition candidates (env : Env) : list pystr :=
  let candidates := [] in
  let candidates :=
    if frozen env then
      let candidates :=
        match _MEIPASS env with
        | Some meipass => if truthy meipass then candidates ++ [meipass] else candidates
        | None => candidates
        end in
      candidates ++ [executable_dir env]
    else candidates in
  let script_dir :=
    match file_dir env with Ok d => Some d | Raise _ => None end in
  let candidates :=
    match script_dir with
    | Some d => if truthy d then candidates ++ [d] else candidates
    | None => candidates
    end in
  candidates ++ [getcwd env].

Definition _find_resource (env : Env) (name : pystr) : option pystr :=
  first_existing env name (candidates env).

Definition load_dishes (env : Env) : result DataFrame :=
  let name := py "dishes.txt" in
  let fallback :=
    match file_dir env with
    | Ok base_dir =>
        let path := path_join env base_dir name in
        if path_exists env path then Some path else None
    | Raise _ => None
    end in
  let path :=
    match _find_resource env name with
    | Some p => if truthy p then Some p else fallback
    | None => fallback
    end in
  match path with
  | None => Ok (pd_DataFrame [])
  | Some path =>
      content ← read_text env path;
      dishes ← exec_content env content;
      mret (pd_DataFrame (default [] dishes))
  end.

(** ** [search_by_tag] *)

Definition has_tag (tag : pystr) (tags : cell) : bool :=
  match py_in tag tags with
  | Ok b => b
  | Raise _ => false
  end.

Definition search_by_tag (env : Env) (tag : pystr) (checkpoint : option DataFrame)
  : result DataFrame :=
  checkpoint ← match checkpoint with
               | None => load_dishes env
               | Some df => Ok df
               end;
  tags ← getitem checkpoint (py "tags");
  mret (boolean_index checkpoint (has_tag tag <$> tags)).

(** ** The window state the suggestion code works on *)

Record Popup := {
  items : list pystr;
  visible : bool
}.

Record QueshiWindow := {
  checkpoint : option DataFrame;
  _tag_list : list pystr;
  _tag_popup : option Popup
}.

(** [completer.setMaxVisibleItems(10)]: the number of rows of the completer's
    list that are on screen at once *)
Definition max_visible_items : nat := 10.

Section window.
Context `{U : Unicode}.

(** the part of [_update_tag_completer] that the popup depends on: the tag
    list is recomputed and the popup created if there is none *)
Definition _update_tag_completer (self : QueshiWindow) : QueshiWindow :=
  {| checkpoint := checkpoint self;
     _tag_list := tag_list (checkpoint self);
     _tag_popup := match _tag_popup self with
                   | Some popup => Some popup
                   | None => Some {| items := []; visible := false |}
                   end |}.

(** the entries [_show_tag_popup] adds to the cleared popup *)
Definition popup_entries (tag_list : list pystr) (prefix : pystr) : list pystr :=
  let prefix := strip prefix in
  List.filter (λ t, negb (truthy prefix) || str_contains (lower t) (lower prefix))
              tag_list.

Definition _show_tag_popup (self : QueshiWindow) (prefix : pystr) : QueshiWindow :=
  match _tag_popup self with
  | None => self
  | Some popup =>
      let entries := popup_entries (_tag_list self) prefix in
      {| checkpoint := checkpoint self;
         _tag_list := _tag_list self;
         _tag_popup :=
           Some {| items := entries;
                   visible := match entries with [] => false | _ :: _ => true end |} |}
  end.
End window.

(** ** A concrete character table

    [str.isalnum] and [str.lower] on ASCII and on the CJK Unified Ideographs
    block (U+4E00 to U+9FFF), and the full whitespace set of [str.strip];
    the examples below are evaluated with it. *)

Definition in_range (lo hi c : N) : bool := (lo <=? c) && (c <=? hi).

Definition ascii_cjk_isalnum (c : N) : bool :=
  in_range 48 57 c || in_range 65 90 c || in_range 97 122 c
  || in_range 0x4E00 0x9FFF c.

Definition py_isspace (c : N) : bool :=
  in_range 9 13 c || in_range 28 32 c || (c =? 0x85) || (c =? 0xA0)
  || (c =? 0x1680) || in_range 0x2000 0x200A c || in_range 0x2028 0x2029 c
  || (c =? 0x202F) || (c =? 0x205F) || (c =? 0x3000).

Definition ascii_lower (s : pystr) : pystr :=
  (λ c, if in_range 65 90 c then c + 32 else c) <$> s.

Definition ascii_cjk : Unicode :=
  {| isalnum := ascii_cjk_isalnum; isspace := py_isspace; lower := ascii_lower |}.

(** ** Sample environments and records for the examples *)

Definition posix_join (d name : pystr) : pystr :=
  match last d with
  | Some 47 => d ++ name
  | _ => d ++ py "/" ++ name
  end.

(** a development checkout in [/app], run from [/home/user], in which the
    files listed in [files] exist, all with content [content] *)
Definition script_env (files : list pystr) (content : pystr)
    (run : result (option (list dish))) : Env :=
  {| frozen := false;
     _MEIPASS := None;
     executable_dir := py "/usr/bin";
     file_dir := Ok (py "/app");
     getcwd := py "/home/user";
     path_join := posix_join;
     path_exists := λ p, bool_decide (p ∈ files);
     read_text := λ p, if bool_decide (p ∈ files) then Ok content else Raise OSError;
     exec_content := λ c, if bool_decide (c = content) then run else Raise SyntaxError |}.

(** the same checkout with no data file anywhere *)
Definition no_files : Env := script_env [] [] (Ok None).

(** a record with nothing but a [tags] field *)
Definition tagged (c : cell) : dish := {[ py "tags" := c ]}.

(** a record with nothing but a [name] field *)
Definition named (n : string) : dish := {[ py "name" := CStr (py n) ]}.

(** ** What holds of a record when [tag in tags] succeeds and is true *)

Definition raw_match (tag : pystr) (d : dish) : Prop :=
  match at_column (py "tags") d with
  | CStr s => ∃ pre post, s = pre ++ tag ++ post
  | CSeq l => EStr tag ∈ l
  | CObj _ => False
  end.


(** ** Runs of characters in a string *)

(** the longest prefix of [s] whose characters satisfy [keep] *)
Fixpoint keep_prefix (keep : N → bool) (s : pystr) : pystr :=
  match s with
  | c :: s' => if keep c then c :: keep_prefix keep s' else []
  | [] => []
  end.

(** [pre] does not end, and [post] does not start, with a character that
    satisfies [keep] *)
Definition bounded_left (keep : N → bool) (pre : pystr) : Prop :=
  ∀ c, last pre = Some c → keep c = false.
Definition bounded_right (keep : N → bool) (post : pystr) : Prop :=
  ∀ c, head post = Some c → keep c = false.

(** [t] is a maximal non-empty run of characters of [s] that satisfy [keep] *)
Definition word_run (keep : N → bool) (s t : pystr) : Prop :=
  t ≠ [] ∧
  ∃ pre post, s = pre ++ t ++ post
    ∧ Forall (λ c, keep c = true) t
    ∧ bounded_left keep pre ∧ bounded_right keep post.

(** a run as above, except that it need not be non-empty and does not start
    at the first character of [s] *)
Definition inner_run (keep : N → bool) (s t : pystr) : Prop :=
  ∃ pre post, pre ≠ [] ∧ s = pre ++ t ++ post
    ∧ Forall (λ c, keep c = true) t
    ∧ bounded_left keep pre ∧ bounded_right keep post.

(** ** Tokens, stated without the code *)

Section tokens.
Context `{U : Unicode}.

(** no whitespace at either end *)
Definition trimmed (t : pystr) : Prop :=
  (∀ c, head t = Some c → isspace c = false)
  ∧ (∀ c, last t = Some c → isspace c = false).

(** [t] is a token of the cell [c] *)
Definition token_of (c : cell) (t : pystr) : Prop :=
  match c with
  | CStr s => t ≠ [] ∧ ∃ p, word_run is_word s p ∧ t = strip p
  | CSeq l => ∃ e, e ∈ l ∧ t = str_elem e
  | CObj ONone => False
  | CObj o => t = str_obj o
  end.
End tokens.

(** ** The operations as the specification words them *)

Section spec.
Context `{U : Unicode}.

(** tokens of one [tags] value: a string is split on every run of
    non-alphanumeric characters, the elements of a sequence are
    stringified, and the tokens are trimmed and non-empty *)
Definition spec_tokens (c : cell) : gset pystr :=
  match c with
  | CStr s =>
      list_to_set (List.filter (λ p, negb (bool_decide (p = [])))
                               (strip <$> split_runs (λ c, negb (isalnum c)) s))
  | CSeq l =>
      list_to_set (List.filter (λ p, negb (bool_decide (p = [])))
                               ((λ t, strip (str_elem t)) <$> l))
  | CObj _ => ∅
  end.

(** [buildVocabulary]: the union over all records, sorted *)
Definition spec_vocabulary (df : DataFrame) : list pystr :=
  sorted (⋃ ((λ d, match d !! py "tags" with
                   | Some c => spec_tokens c
                   | None => ∅
                   end) <$> df)).

(** [suggest]: a case-insensitive contains filter capped at [limit], the
    empty query matching every entry *)
Definition spec_suggest (vocabulary : list pystr) (query : pystr) (limit : nat)
  : list pystr :=
  take limit
    (List.filter (λ t, bool_decide (query = []) || str_contains (lower t) (lower query))
                 vocabulary).

End spec.

(** ** The search order of the loader, as the specification words it *)

(** (1) the bundled resource directory of a packaged program *)
Definition bundled_dirs (env : Env) : list pystr :=
  if frozen env then
    match _MEIPASS env with Some meipass => [meipass] | None => [] end
  else [].

(** (2) the directories next to the running program: that of the executable
    when packaged, then that of the script *)
Definition program_dirs (env : Env) : list pystr :=
  (if frozen env then [executable_dir env] else [])
  ++ match file_dir env with Ok script_dir => [script_dir] | Raise _ => [] end.

(** (1), (2), then (3) the current working directory *)
Definition search_order (env : Env) : list pystr :=
  bundled_dirs env ++ program_dirs env ++ [getcwd env].

(** ** The handlers of the window: searching and loading *)

(** the texts of [status_label] *)
Inductive status :=
| NotLoaded
| DataLoaded (n : nat)
| LoadFailed
| SearchDone (n : nat).

(** the message boxes: the request to enter a tag, and the two error boxes
    with the exception they show *)
Inductive dialog :=
| AskForTag
| SearchFailed (e : exn)
| LoadFileFailed (e : exn).

(** the window together with the text of the entry, the frame of the table
    model and the status label *)
Record Gui := {
  window : QueshiWindow;
  entry : pystr;
  table : DataFrame;
  status_label : status
}.

Definition _hide_tag_popup (self : QueshiWindow) : QueshiWindow :=
  match _tag_popup self with
  | None => self
  | Some popup =>
      {| checkpoint := checkpoint self;
         _tag_list := _tag_list self;
         _tag_popup := Some {| items := items popup; visible := false |} |}
  end.

Section handlers.
Context `{U : Unicode}.

Definition on_search (env : Env) (self : Gui) : Gui * option dialog :=
  let tag := strip (entry self) in
  if negb (truthy tag) then (self, Some AskForTag)
  else
    match search_by_tag env tag (checkpoint (window self)) with
    | Ok results =>
        ({| window := window self;
            entry := entry self;
            table := results;
            status_label := SearchDone (List.length results) |}, None)
    | Raise e => (self, Some (SearchFailed e))
    end.

(** [answer] is the text of the input dialog, [None] when it is cancelled *)
Definition menu_search (env : Env) (self : Gui) (answer : option pystr)
  : Gui * option dialog :=
  match answer with
  | None => (self, None)
  | Some tag =>
      let tag := strip tag in
      if negb (truthy tag) then (self, Some AskForTag)
      else
        match search_by_tag env tag (checkpoint (window self)) with
        | Ok results =>
            ({| window := window self;
                entry := entry self;
                table := results;
                status_label := SearchDone (List.length results) |}, None)
        | Raise e => (self, Some (SearchFailed e))
        end
  end.

Definition _on_popup_item_clicked (env : Env) (self : Gui) (text : pystr)
  : Gui * option dialog :=
  on_search env {| window := _hide_tag_popup (window self);
                   entry := text;
                   table := table self;
                   status_label := status_label self |}.

Definition load_data (env : Env) (self : Gui) : Gui :=
  match load_dishes env with
  | Ok df =>
      {| window := _update_tag_completer
                     {| checkpoint := Some df;
                        _tag_list := _tag_list (window self);
                        _tag_popup := _tag_popup (window self) |};
         entry := entry self;
         table := table self;
         status_label := DataLoaded (List.length df) |}
  | Raise _ =>
      {| window := window self;
         entry := entry self;
         table := table self;
         status_label := LoadFailed |}
  end.

(** [path] is the file the user picked, the empty string when the file
    dialog is cancelled *)
Definition on_load (env : Env) (self : Gui) (path : pystr) : Gui * option dialog :=
  if negb (truthy path) then (self, None)
  else
    let dishes :=
      content ← read_text env path;
      ns ← exec_content env content;
      match ns with
      | Some dishes => Ok dishes
      | None => Raise (KeyError (py "dishes"))
      end in
    match dishes with
    | Ok dishes =>
        ({| window := _update_tag_completer
                        {| checkpoint := Some (pd_DataFrame dishes);
                           _tag_list := _tag_list (window self);
                           _tag_popup := _tag_popup (window self) |};
            entry := entry self;
            table := table self;
            status_label := DataLoaded (List.length (pd_DataFrame dishes)) |}, None)
    | Raise e => (self, Some (LoadFileFailed e))
    end.
End handlers.

(** ** The window over time *)

Definition with_window (self : Gui) (w : QueshiWindow) : Gui :=
  {| window := w; entry := entry self; table := table self;
     status_label := status_label self |}.

Definition with_entry (self : Gui) (text : pystr) : Gui :=
  {| window := window self; entry := text; table := table self;
     status_label := status_label self |}.

Section steps.
Context `{U : Unicode}.

(** the window as [QueshiWindow.__init__] leaves it: an empty table, the data
    loaded by [load_data], the tag list rebuilt once more *)
Definition init_gui (env : Env) : Gui :=
  let self :=
    load_data env
      {| window := {| checkpoint := None; _tag_list := []; _tag_popup := None |};
         entry := [];
         table := pd_DataFrame [];
         status_label := NotLoaded |} in
  with_window self (_update_tag_completer (window self)).

(** what the user and the callbacks do to the window afterwards *)
Inductive gui_step (env : Env) : Gui → Gui → Prop :=
| step_edit self text :
    gui_step env self (with_entry self text)
| step_show_tag_popup self prefix :
    gui_step env self (with_window self (_show_tag_popup (window self) prefix))
| step_hide_tag_popup self :
    gui_step env self (with_window self (_hide_tag_popup (window self)))
| step_on_search self :
    gui_step env self (on_search env self).1
| step_menu_search self answer :
    gui_step env self (menu_search env self answer).1
| step_popup_item_clicked self text :
    gui_step env self (_on_popup_item_clicked env self text).1
| step_load_data self :
    gui_step env self (load_data env self)
| step_on_load self path :
    gui_step env self (on_load env self path).1.
End steps.

(** the tag list is that of the catalog the window holds *)
Definition vocabulary_in_sync `{U : Unicode} (self : QueshiWindow) : Prop :=
  _tag_list self = tag_list (checkpoint self).

(** the tag list is in sync, the popup exists, and it is on screen only with
    entries in it *)
Definition gui_invariant `{U : Unicode} (self : Gui) : Prop :=
  vocabulary_in_sync (window self)
  ∧ ∃ popup, _tag_popup (window self) = Some popup
             ∧ (visible popup = true → items popup ≠ []).

(** ** The background image of the window *)

(** the list [candidates] of [QueshiWindow.__init__] *)
Definition bg_candidates (env : Env) : result (list pystr) :=
  candidates ←
    (if frozen env then
       Ok (match _MEIPASS env with
           | Some meipass => if truthy meipass then [meipass] else []
           | None => []
           end ++ [executable_dir env])
     else
       script_dir ← file_dir env; Ok [script_dir]);
  Ok (candidates ++ [getcwd env]).

(** the path kept as [self._bg_path] *)
Definition _bg_path (env : Env) : result pystr :=
  let name := py "background.png" in
  candidates ← bg_candidates env;
  match first_existing env name candidates with
  | Some found => if truthy found then Ok found
                  else script_dir ← file_dir env; Ok (path_join env script_dir name)
  | None => script_dir ← file_dir env; Ok (path_join env script_dir name)
  end.

(** ** Opacity of the overlay and of the table *)

(** an [int] as a [float] *)
Definition float_of_Z (z : Z) : float :=
  if (z <? 0)%Z then PrimFloat.opp (PrimFloat.of_uint63 (Uint63.of_Z (- z)))
  else PrimFloat.of_uint63 (Uint63.of_Z z).

(** [int(x)]: truncation towards zero; it raises on [nan] and the infinities *)
Definition py_int (x : float) : option Z :=
  match Prim2SF x with
  | S754_zero _ => Some 0%Z
  | S754_finite s m e =>
      let magnitude :=
        if (0 <=? e)%Z then (Z.pos m * 2 ^ e)%Z else (Z.pos m / 2 ^ (- e))%Z in
      Some (if s then (- magnitude)%Z else magnitude)
  | S754_infinity _ => None
  | S754_nan => None
  end.

(** [self.alpha_slider.value() / 100.0] *)
Definition slider_alpha (value : Z) : float :=
  PrimFloat.div (float_of_Z value) (float_of_Z 100).

(** [int((1 - alpha) * 255)] *)
Definition opa_of_alpha (alpha : float) : option Z :=
  py_int (PrimFloat.mul (PrimFloat.sub (float_of_Z 1) alpha) (float_of_Z 255)).

Definition clamp_255 (n : Z) : Z := Z.max 0 (Z.min 255 n).

(** the alpha channel that [_overlay_style] writes *)
Definition overlay_opa (alpha : float) : option Z :=
  opa ← opa_of_alpha alpha; Some (clamp_255 opa).

Definition _overlay_style (alpha : float) : option pystr :=
  opa ← overlay_opa alpha;
  Some (py "background-color: rgba(255,255,255," ++ py (pretty opa)
        ++ py "); border-radius:8px;").

(** the alpha channel that [_apply_opacity] writes for the table; the float
    literal is that of [0.6] *)
Definition table_opa (alpha : float) : option Z :=
  opa ← opa_of_alpha alpha;
  table_opa ← py_int (PrimFloat.mul (float_of_Z opa) 0x1.3333333333333p-1%float);
  Some (clamp_255 table_opa).

(** the style sheets of the overlay and of the table *)
Definition _apply_opacity (alpha : float) : option (pystr * pystr) :=
  opa ← opa_of_alpha alpha;
  overlay ← _overlay_style alpha;
  table_opa ← table_opa alpha;
  Some (overlay,
        py "QTableView { background-color: rgba(255,255,255," ++ py (pretty table_opa)
        ++ py "); }").

(** [on_alpha_change]: the style sheets for the value of the slider *)
Definition on_alpha_change (value : Z) : option (pystr * pystr) :=
  _apply_opacity (slider_alpha value).

(** a [tags] cell that is a string, a sequence of strings, or [None] *)
Definition text_or_none (c : cell) : Prop :=
  match c with
  | CStr _ => True
  | CSeq l => Forall (λ t, ∃ s, t = EStr s) l
  | CObj ONone => True
  | CObj _ => False
  end.

(** ** Checks of the opacity arithmetic, for evaluation over the slider range *)

(** for the slider value [v]: the alpha channel of the overlay needs no
    clamping, that of the table is between 0 and it, and at most 153 *)
Definition opacity_in_range (v : Z) : bool :=
  match opa_of_alpha (slider_alpha v), overlay_opa (slider_alpha v),
        table_opa (slider_alpha v) with
  | Some opa, Some overlay, Some table =>
      (0 <=? opa)%Z && (opa <=? 255)%Z && (overlay =? opa)%Z
      && (0 <=? table)%Z && (table <=? overlay)%Z && (table <=? 153)%Z
  | _, _, _ => false
  end.

(** for the slider values [v] and [w]: if [v <= w] then neither alpha channel
    is larger at [w] than at [v] *)
Definition opacity_antitone (v w : Z) : bool :=
  match overlay_opa (slider_alpha v), overlay_opa (slider_alpha w),
        table_opa (slider_alpha v), table_opa (slider_alpha w) with
  | Some ov, Some ow, Some tv, Some tw =>
      negb (v <=? w)%Z || ((ow <=? ov)%Z && (tw <=? tv)%Z)
  | _, _, _, _ => false
  end.

(** the values of the slider, which [setRange(0, 100)] bounds *)
Definition slider_values : list Z := Z.of_nat <$> seq 0 101.

(** * Properties *)

(** ** Lists, masks and substrings *)

Lemma boolean_index_fmap (f : dish → bool) (df : DataFrame) :
  boolean_index df (f <$> df) = List.filter f df.
Proof.
  induction df as [|d df IH]; csimpl; [done|].
  rewrite IH. by destruct (f d).
Qed.

Lemma filter_sublist {A} (f : A → bool) (l : list A) :
  List.filter f l `sublist_of` l.
Proof.
  induction l as [|x l IH]; simpl; [constructor|].
  destruct (f x); by constructor.
Qed.

Lemma elem_of_List_filter {A} (f : A → bool) (l : list A) x :
  x ∈ List.filter f l ↔ x ∈ l ∧ f x = true.
Proof. rewrite !list_elem_of_In. apply filter_In. Qed.

Lemma startswith_spec s p : startswith s p = true ↔ ∃ post, s = p ++ post.
Proof.
  revert s. induction p as [|a p IH]; intros s; simpl.
  - split; [eauto|done].
  - destruct s as [|b s].
    + split; [done|]. intros [post Hp]. discriminate.
    + rewrite andb_true_iff, N.eqb_eq, IH. split.
      * intros [-> [post ->]]. eauto.
      * intros [post Hp]. injection Hp as -> ->. eauto.
Qed.

Lemma str_contains_spec s p :
  str_contains s p = true ↔ ∃ pre post, s = pre ++ p ++ post.
Proof.
  induction s as [|c s IH]; simpl.
  - rewrite orb_false_r, startswith_spec. split.
    + intros [post ->]. by exists [], post.
    + intros (pre & post & Hs). symmetry in Hs.
      apply app_eq_nil in Hs as [-> Hs]. eauto.
  - rewrite orb_true_iff, startswith_spec, IH. split.
    + intros [[post ->]|(pre & post & ->)].
      * by exists [], post.
      * by exists (c :: pre), post.
    + intros (pre & post & Hs). destruct pre as [|c' pre].
      * left. eauto.
      * right. injection Hs as -> ->. eauto.
Qed.

Lemma existsb_elem_eq_str tag l :
  existsb (elem_eq_str tag) l = true ↔ EStr tag ∈ l.
Proof.
  rewrite existsb_exists. split.
  - intros (t & Hin & Heq). destruct t as [s|o]; [|done].
    simpl in Heq. apply bool_decide_eq_true in Heq as ->.
    by apply list_elem_of_In.
  - intros Hin. exists (EStr tag). split; [by apply list_elem_of_In|].
    simpl. by apply bool_decide_eq_true.
Qed.

Lemma has_tag_raw_match tag d :
  has_tag tag (at_column (py "tags") d) = true ↔ raw_match tag d.
Proof.
  unfold has_tag, raw_match. destruct (at_column _ d) as [s|l|o]; simpl.
  - apply str_contains_spec.
  - apply existsb_elem_eq_str.
  - split; [done|tauto].
Qed.

Lemma search_by_tag_Some env tag df :
  py "tags" ∈ columns df →
  search_by_tag env tag (Some df)
  = Ok (List.filter (λ d, has_tag tag (at_column (py "tags") d)) df).
Proof.
  intros Hcol. unfold search_by_tag, getitem. simpl.
  rewrite decide_True by done. simpl. unfold mret, result_ret. f_equal.
  rewrite <- list_fmap_compose.
  exact (boolean_index_fmap (λ d, has_tag tag (at_column (py "tags") d)) df).
Qed.

Lemma search_by_tag_no_column env tag df :
  py "tags" ∉ columns df →
  search_by_tag env tag (Some df) = Raise (KeyError (py "tags")).
Proof.
  intros Hcol. unfold search_by_tag, getitem. simpl.
  by rewrite decide_False by done.
Qed.

(** ** The order of strings and [sorted] *)

Lemma str_ltb_irrefl a : str_ltb a a = false.
Proof.
  induction a as [|x a IH]; simpl; [done|].
  by rewrite N.ltb_irrefl, N.eqb_refl, IH.
Qed.

Lemma str_ltb_cons x a y b :
  str_ltb (x :: a) (y :: b) = true ↔ x < y ∨ (x = y ∧ str_ltb a b = true).
Proof.
  simpl. rewrite orb_true_iff, andb_true_iff, N.ltb_lt, N.eqb_eq. tauto.
Qed.

Lemma str_ltb_trans a b c :
  str_ltb a b = true → str_ltb b c = true → str_ltb a c = true.
Proof.
  revert b c. induction a as [|x a IH]; intros [|y b] [|z c]; try done.
  rewrite !str_ltb_cons. intros [Hxy|[-> Hab]] [Hyz|[-> Hbc]].
  - left. lia.
  - by left.
  - by left.
  - right. eauto.
Qed.

Lemma str_ltb_trichotomy a b :
  str_ltb a b = false → str_ltb b a = false → a = b.
Proof.
  revert b. induction a as [|x a IH]; intros [|y b]; try done.
  intros Hab Hba.
  destruct (N.lt_total x y) as [Hlt|[->|Hgt]].
  - assert (str_ltb (x :: a) (y :: b) = true) by (apply str_ltb_cons; auto).
    congruence.
  - f_equal. apply IH.
    + destruct (str_ltb a b) eqn:E; [|done].
      assert (str_ltb (y :: a) (y :: b) = true) by (apply str_ltb_cons; auto).
      congruence.
    + destruct (str_ltb b a) eqn:E; [|done].
      assert (str_ltb (y :: b) (y :: a) = true) by (apply str_ltb_cons; auto).
      congruence.
  - assert (str_ltb (y :: b) (x :: a) = true) by (apply str_ltb_cons; auto).
    congruence.
Qed.

Lemma str_ltb_asym a b : str_ltb a b = true → str_ltb b a = false.
Proof.
  intros Hab. destruct (str_ltb b a) eqn:Hba; [|done].
  pose proof (str_ltb_trans _ _ _ Hab Hba) as Haa.
  by rewrite str_ltb_irrefl in Haa.
Qed.

Global Instance str_le_total : Total str_le.
Proof.
  intros a b. unfold str_le. destruct (str_ltb b a) eqn:E; [|by left].
  right. by apply str_ltb_asym.
Qed.

Global Instance str_le_trans : Transitive str_le.
Proof.
  intros a b c Hab Hbc. unfold str_le in *.
  destruct (str_ltb c a) eqn:Hca; [|done].
  destruct (str_ltb a b) eqn:Hlt.
  - pose proof (str_ltb_trans _ _ _ Hca Hlt). congruence.
  - assert (a = b) as -> by by apply str_ltb_trichotomy.
    congruence.
Qed.

Lemma str_le_ne_lt a b : str_le a b → a ≠ b → str_lt a b.
Proof.
  unfold str_le, str_lt. intros Hle Hne.
  destruct (str_ltb a b) eqn:E; [done|].
  destruct Hne. by apply str_ltb_trichotomy.
Qed.

Lemma elem_of_sorted (X : gset pystr) t : t ∈ sorted X ↔ t ∈ X.
Proof.
  unfold sorted. rewrite merge_sort_Permutation. apply elem_of_elements.
Qed.

Lemma NoDup_sorted (X : gset pystr) : NoDup (sorted X).
Proof.
  unfold sorted. rewrite merge_sort_Permutation. apply NoDup_elements.
Qed.

Lemma StronglySorted_le_NoDup_lt (l : list pystr) :
  StronglySorted str_le l → NoDup l → StronglySorted str_lt l.
Proof.
  induction 1 as [|a l Hl IH Hall]; intros Hnd; [constructor|].
  apply NoDup_cons in Hnd as [Hnotin Hnd].
  constructor; [auto|].
  rewrite Forall_forall in Hall |- *. intros b Hb.
  apply str_le_ne_lt; [by apply Hall|].
  intros ->. by apply Hnotin.
Qed.

Lemma sorted_strictly (X : gset pystr) : StronglySorted str_lt (sorted X).
Proof.
  apply StronglySorted_le_NoDup_lt; [|apply NoDup_sorted].
  unfold sorted. apply (StronglySorted_merge_sort str_le).
Qed.

(** ** What reaches [tags_set] *)

Section tags_set.
Context `{U : Unicode}.

Lemma elem_of_add_strs {A} (f : A → pystr) (l : list A) (X : gset pystr) t :
  t ∈ foldl (λ acc e, {[f e]} ∪ acc) X l ↔ t ∈ X ∨ ∃ e, e ∈ l ∧ t = f e.
Proof.
  revert X. induction l as [|e l IH]; intros X; simpl.
  - split; [auto|]. intros [?|(e & He & _)]; [done|]. by apply elem_of_nil in He.
  - rewrite IH, elem_of_union, elem_of_singleton. split.
    + intros [[->|?]|(e' & He' & ->)]; [right|by left|right].
      * exists e. split; [left|done].
      * exists e'. split; [by right|done].
    + intros [?|(e' & He' & ->)]; [by left; right|].
      apply elem_of_cons in He' as [->|He']; [by left; left|].
      right. eauto.
Qed.

Lemma elem_of_add_parts (parts : list pystr) (X : gset pystr) t :
  t ∈ add_parts X parts ↔ t ∈ X ∨ (t ≠ [] ∧ ∃ p, p ∈ parts ∧ t = strip p).
Proof.
  unfold add_parts. revert X. induction parts as [|p parts IH]; intros X; simpl.
  - split; [auto|]. intros [?|(_ & p & Hp & _)]; [done|]. by apply elem_of_nil in Hp.
  - rewrite IH. case_bool_decide as Hempty.
    + split.
      * intros [?|(Hne & q & Hq & ->)]; [by left|].
        right. split; [done|]. exists q. split; [by right|done].
      * intros [?|(Hne & q & Hq & ->)]; [by left|].
        apply elem_of_cons in Hq as [->|Hq]; [done|].
        right. eauto.
    + rewrite elem_of_union, elem_of_singleton. split.
      * intros [[->|?]|(Hne & q & Hq & ->)]; [right|by left|right].
        -- split; [done|]. exists p. split; [left|done].
        -- split; [done|]. exists q. split; [by right|done].
      * intros [?|(Hne & q & Hq & ->)]; [by left; right|].
        apply elem_of_cons in Hq as [->|Hq]; [by left; left|].
        right. eauto.
Qed.

Lemma elem_of_add_item (X : gset pystr) (item : cell) t :
  t ∈ add_item X item ↔ t ∈ X ∨ t ∈ add_item ∅ item.
Proof.
  destruct item as [s|l|[| |text]]; simpl.
  - rewrite (elem_of_add_parts _ X), (elem_of_add_parts _ ∅).
    pose proof (not_elem_of_empty (C:=gset pystr) t). tauto.
  - rewrite (elem_of_add_strs _ _ X), (elem_of_add_strs _ _ ∅).
    pose proof (not_elem_of_empty (C:=gset pystr) t). tauto.
  - pose proof (not_elem_of_empty (C:=gset pystr) t). tauto.
  - rewrite !elem_of_union. pose proof (not_elem_of_empty (C:=gset pystr) t). tauto.
  - rewrite !elem_of_union. pose proof (not_elem_of_empty (C:=gset pystr) t). tauto.
Qed.

Lemma elem_of_foldl_add_item (col : list cell) (X : gset pystr) t :
  t ∈ foldl add_item X col ↔ t ∈ X ∨ ∃ c, c ∈ col ∧ t ∈ add_item ∅ c.
Proof.
  revert X. induction col as [|c col IH]; intros X; simpl.
  - split; [auto|]. intros [?|(c & Hc & _)]; [done|]. by apply elem_of_nil in Hc.
  - rewrite IH, elem_of_add_item. split.
    + intros [[?|?]|(c' & Hc' & ?)]; [by left|right|right].
      * exists c. split; [left|done].
      * exists c'. split; [by right|done].
    + intros [?|(c' & Hc' & ?)]; [by left; left|].
      apply elem_of_cons in Hc' as [->|Hc']; [by left; right|].
      right. eauto.
Qed.

Lemma columns_nil : columns [] = ∅.
Proof. done. Qed.

Lemma df_empty_no_tags (df : DataFrame) :
  df_empty df = true → py "tags" ∉ columns df.
Proof.
  unfold df_empty. rewrite orb_true_iff, !bool_decide_eq_true.
  intros [->|Hcols]; [rewrite columns_nil|rewrite Hcols];
    apply not_elem_of_empty.
Qed.

(** the entries of the tag list are the tokens of the records, as long as
    the frame has a [tags] column *)
Lemma elem_of_tag_list (df : DataFrame) t :
  t ∈ tag_list (Some df) ↔
  py "tags" ∈ columns df ∧ ∃ d, d ∈ df ∧ t ∈ normalized_tags d.
Proof.
  unfold tag_list, normalized_tags. destruct (df_empty df) eqn:Hempty.
  - apply df_empty_no_tags in Hempty. split; [by intros ?%elem_of_nil|tauto].
  - unfold getitem. destruct (decide _) as [Hcol|Hcol].
    + rewrite elem_of_sorted, elem_of_foldl_add_item. split.
      * intros [Ht|(c & Hc & Ht)]; [by apply not_elem_of_empty in Ht|].
        apply list_elem_of_fmap in Hc as (d & -> & Hd). eauto.
      * intros (_ & d & Hd & Ht). right. eexists. split; [|done].
        apply list_elem_of_fmap. eauto.
    + rewrite elem_of_sorted. split; [by intros ?%not_elem_of_empty|tauto].
Qed.
End tags_set.

(** ** The pieces of [re.split] are the maximal runs *)

Section runs.
Variable keep : N → bool.
Local Abbreviation sep := (λ c, negb (keep c)).

Lemma split_runs_keep c s :
  keep c = true →
  split_runs sep (c :: s)
  = match split_runs sep s with p :: ps => (c :: p) :: ps | [] => [[c]] end.
Proof. intros Hc. simpl. by rewrite Hc. Qed.

Lemma split_runs_sep c s :
  keep c = false →
  split_runs sep (c :: s)
  = match s with
    | c' :: _ => if keep c' then [] :: split_runs sep s else split_runs sep s
    | [] => [] :: split_runs sep s
    end.
Proof.
  intros Hc. simpl. rewrite Hc. simpl.
  destruct s as [|c' s]; [done|]. by destruct (keep c').
Qed.

Lemma split_runs_head s :
  split_runs sep s = keep_prefix keep s :: tail (split_runs sep s).
Proof.
  induction s as [|c s IH]; [done|].
  destruct (keep c) eqn:Hc.
  - rewrite split_runs_keep by done. rewrite IH. simpl. by rewrite Hc.
  - rewrite split_runs_sep by done. cbn [keep_prefix]. rewrite Hc.
    destruct s as [|c' s]; [done|].
    destruct (keep c') eqn:Hc'; [done|].
    rewrite IH. cbn [keep_prefix tail]. by rewrite Hc'.
Qed.

Lemma split_runs_tail_keep c s :
  keep c = true → tail (split_runs sep (c :: s)) = tail (split_runs sep s).
Proof.
  intros Hc. rewrite split_runs_keep by done.
  by rewrite (split_runs_head s).
Qed.

Lemma split_runs_tail_sep c s t :
  keep c = false → t ≠ [] →
  t ∈ tail (split_runs sep (c :: s)) ↔ t ∈ split_runs sep s.
Proof.
  intros Hc Ht. rewrite split_runs_sep by done.
  destruct s as [|c' s]; [done|].
  destruct (keep c') eqn:Hc'; [done|].
  rewrite (split_runs_head (c' :: s)). cbn [keep_prefix tail]. rewrite Hc'.
  rewrite elem_of_cons. split; [auto|]. by intros [->|?].
Qed.

Lemma Forall_keep_prefix s : Forall (λ c, keep c = true) (keep_prefix keep s).
Proof.
  induction s as [|c s IH]; simpl; [constructor|].
  destruct (keep c) eqn:Hc; by constructor.
Qed.

Lemma keep_prefix_split s :
  ∃ post, s = keep_prefix keep s ++ post ∧ bounded_right keep post.
Proof.
  induction s as [|c s (post & Hs & Hpost)]; simpl.
  - exists []. split; [done|]. by intros c.
  - destruct (keep c) eqn:Hc.
    + exists post. split; [simpl; by rewrite <- Hs|done].
    + exists (c :: s). split; [done|]. intros c' [= <-]. done.
Qed.

Lemma keep_prefix_unique s t post :
  s = t ++ post → Forall (λ c, keep c = true) t → bounded_right keep post →
  t = keep_prefix keep s.
Proof.
  intros -> Ht Hpost. induction Ht as [|c t Hc Ht IH]; simpl.
  - destruct post as [|c post]; [done|]. simpl. by rewrite (Hpost c).
  - by rewrite Hc, <- IH.
Qed.

Local Abbreviation inner_run := (inner_run keep).

Lemma word_run_cases s t :
  word_run keep s t ↔ t ≠ [] ∧ (t = keep_prefix keep s ∨ inner_run s t).
Proof.
  unfold word_run, inner_run. split.
  - intros (Hne & pre & post & Hs & Ht & Hpre & Hpost). split; [done|].
    destruct pre as [|c pre].
    + left. by eapply keep_prefix_unique.
    + right. exists (c :: pre), post. done.
  - intros (Hne & [->|(pre & post & _ & Hs & Ht & Hpre & Hpost)]); split; try done.
    + destruct (keep_prefix_split s) as (post & Hs & Hpost).
      exists [], post. split_and!; [done|apply Forall_keep_prefix|by intros c|done].
    + by exists pre, post.
Qed.

Lemma inner_run_cons_keep c s t :
  keep c = true → inner_run (c :: s) t ↔ inner_run s t.
Proof.
  intros Hc. unfold inner_run. split.
  - intros (pre & post & Hne & Hs & Ht & Hpre & Hpost).
    destruct pre as [|c' pre]; [done|]. injection Hs as Hcc Hs. subst c' s.
    destruct pre as [|c'' pre].
    + specialize (Hpre c eq_refl). congruence.
    + exists (c'' :: pre), post. done.
  - intros (pre & post & Hne & -> & Ht & Hpre & Hpost).
    exists (c :: pre), post. split_and!; try done.
    by destruct pre.
Qed.

Lemma inner_run_cons_sep c s t :
  keep c = false → t ≠ [] → inner_run (c :: s) t ↔ word_run keep s t.
Proof.
  intros Hc Hne. unfold inner_run, word_run. split.
  - intros (pre & post & _ & Hs & Ht & Hpre & Hpost). split; [done|].
    destruct pre as [|c' pre].
    + destruct t as [|c' t]; [done|]. injection Hs as Hcc Hs. subst c' s.
      apply Forall_cons in Ht as [Hc' _]. congruence.
    + injection Hs as Hcc Hs. subst c' s. exists pre, post. split_and!; try done.
      by destruct pre.
  - intros (_ & pre & post & -> & Ht & Hpre & Hpost).
    exists (c :: pre), post. split_and!; try done.
    destruct pre; [|done]. by intros c' [= <-].
Qed.

Lemma elem_of_split_runs_tail s t :
  t ≠ [] → t ∈ tail (split_runs sep s) ↔ inner_run s t.
Proof.
  intros Hne. induction s as [|c s IH].
  - simpl. split; [by intros ?%elem_of_nil|].
    intros (pre & post & Hpre & Hs & _). by destruct pre.
  - destruct (keep c) eqn:Hc.
    + by rewrite split_runs_tail_keep, inner_run_cons_keep.
    + rewrite split_runs_tail_sep, inner_run_cons_sep by done.
      rewrite word_run_cases, split_runs_head, elem_of_cons, IH. tauto.
Qed.

(** the non-empty pieces are exactly the maximal runs *)
Lemma elem_of_split_runs s t :
  t ≠ [] → t ∈ split_runs sep s ↔ word_run keep s t.
Proof.
  intros Hne.
  rewrite word_run_cases, split_runs_head, elem_of_cons, elem_of_split_runs_tail by done.
  tauto.
Qed.
End runs.

(** ** [strip] and the tokens of a cell *)

Section strip.
Context `{U : Unicode}.

Lemma lstrip_head s c : head (lstrip s) = Some c → isspace c = false.
Proof.
  induction s as [|x s IH]; simpl; [done|].
  destruct (isspace x) eqn:Hx; [done|]. simpl. by intros [= <-].
Qed.

Lemma lstrip_suffix s : ∃ k, s = k ++ lstrip s.
Proof.
  induction s as [|x s [k Hk]]; simpl; [by exists []|].
  destruct (isspace x).
  - exists (x :: k). simpl. by rewrite <- Hk.
  - by exists [].
Qed.

Lemma rstrip_prefix s : ∃ k, s = rstrip s ++ k.
Proof.
  unfold rstrip. destruct (lstrip_suffix (reverse s)) as [k Hk].
  exists (reverse k). rewrite <- reverse_app, <- Hk. by rewrite reverse_involutive.
Qed.

Lemma rstrip_last s c : last (rstrip s) = Some c → isspace c = false.
Proof.
  unfold rstrip. rewrite last_reverse. apply lstrip_head.
Qed.

Lemma strip_trimmed s : trimmed (strip s).
Proof.
  unfold strip. split; intros c Hc.
  - destruct (rstrip_prefix (lstrip s)) as [k Hk].
    apply (lstrip_head s). rewrite Hk.
    destruct (rstrip (lstrip s)); [done|]. done.
  - by apply rstrip_last in Hc.
Qed.

Lemma lstrip_id s : (∀ c, head s = Some c → isspace c = false) → lstrip s = s.
Proof.
  destruct s as [|x s]; [done|]. intros Hs. simpl. by rewrite (Hs x).
Qed.

Lemma strip_id t : trimmed t → strip t = t.
Proof.
  intros [Hhead Hlast]. unfold strip, rstrip.
  rewrite (lstrip_id t) by done.
  rewrite lstrip_id; [apply reverse_involutive|].
  intros c. rewrite head_reverse. apply Hlast.
Qed.

Lemma word_run_trimmed s t :
  (∀ c, isspace c = true → is_word c = false) →
  word_run is_word s t → trimmed t.
Proof.
  intros Hlaw (_ & pre & post & _ & Ht & _).
  rewrite Forall_forall in Ht.
  assert (Hword : ∀ c, c ∈ t → isspace c = false).
  { intros c Hc. destruct (isspace c) eqn:Hsp; [|done].
    apply Hlaw in Hsp. rewrite (Ht c Hc) in Hsp. done. }
  split; intros c Hc; apply Hword.
  - destruct t; [done|]. injection Hc as ->. left.
  - apply last_Some in Hc as [t' ->]. apply elem_of_app. right. left.
Qed.

(** where no whitespace character is a word character, as in Unicode, the
    tokens of a string are its maximal runs of word characters themselves *)
Lemma token_of_str_word_run s t :
  (∀ c, isspace c = true → is_word c = false) →
  token_of (CStr s) t ↔ word_run is_word s t.
Proof.
  intros Hlaw. simpl. split.
  - intros (_ & p & Hp & ->). by rewrite strip_id by by eapply word_run_trimmed.
  - intros Ht. split; [by destruct Ht|]. exists t. split; [done|].
    symmetry. by eapply strip_id, word_run_trimmed.
Qed.

(** what one round of the loop adds is the tokens of the cell *)
Lemma elem_of_add_item_token (c : cell) t :
  t ∈ add_item ∅ c ↔ token_of c t.
Proof.
  destruct c as [s|l|[| |text]]; simpl.
  - rewrite elem_of_add_parts. unfold re_split_W. split.
    + intros [Ht|(Hne & p & Hp & ->)]; [by apply not_elem_of_empty in Ht|].
      split; [done|]. exists p. split; [|done].
      apply elem_of_split_runs; [|done]. intros ->.
      by destruct Hne.
    + intros (Hne & p & Hp & ->). right. split; [done|]. exists p. split; [|done].
      apply elem_of_split_runs; [|done]. by destruct Hp.
  - rewrite elem_of_add_strs. split; [|auto].
    intros [Ht|?]; [by apply not_elem_of_empty in Ht|done].
  - split; [apply not_elem_of_empty|done].
  - rewrite elem_of_union, elem_of_singleton. split; [|auto].
    intros [?|Ht]; [done|by apply not_elem_of_empty in Ht].
  - rewrite elem_of_union, elem_of_singleton. split; [|auto].
    intros [?|Ht]; [done|by apply not_elem_of_empty in Ht].
Qed.
End strip.

(** ** Closed goals by evaluation *)

Ltac by_compute := apply (bool_decide_unpack _); vm_compute; exact I.

(** ** [search_by_tag] against exact membership *)

Section search.
Context `{U : Unicode}.

End search.




(** ** The vocabulary *)

(** C2, as stated, fails: the underscore is a word character of [re], so the
    string "a_b" is one token of the code, where splitting on every run of
    non-alphanumeric characters gives the two tokens "a" and "b". *)
Lemma tag_list_underscore_counterexample :
  let df := [tagged (CStr (py "a_b"))] in
  tag_list (U:=ascii_cjk) (Some df) = [py "a_b"]
  ∧ spec_vocabulary (U:=ascii_cjk) df = [py "a"; py "b"]
  ∧ tag_list (U:=ascii_cjk) (Some df) ≠ spec_vocabulary (U:=ascii_cjk) df.
Proof. split_and!; by vm_compute. Qed.

(** C2, amended: the tag list is strictly increasing in the code point order
    of strings (so sorted and without duplicates), and its entries are exactly
    the tokens of the records of a frame with a [tags] column: for a string,
    the maximal runs of word characters (alphanumeric or underscore),
    stripped, where not empty; for a sequence, the [str()] of each element;
    nothing for [None]; the [str()] of any other object.  The two records
    "辣,下饭" and ["下饭", "家常"] give "下饭", "家常", "辣". *)
Theorem tag_list_sorted_tokens `{U : Unicode} (df : DataFrame) :
  StronglySorted str_lt (tag_list (Some df))
  ∧ (∀ t, t ∈ tag_list (Some df) ↔
          py "tags" ∈ columns df
          ∧ ∃ d, d ∈ df ∧ token_of (at_column (py "tags") d) t)
  ∧ tag_list (U:=ascii_cjk)
      (Some [tagged (CStr [0x8FA3; 0x2C; 0x4E0B; 0x996D]);
             tagged (CSeq [EStr [0x4E0B; 0x996D]; EStr [0x5BB6; 0x5E38]])])
    = [[0x4E0B; 0x996D]; [0x5BB6; 0x5E38]; [0x8FA3]].
Proof.
  split_and!.
  - unfold tag_list. destruct (df_empty df); [constructor|].
    apply sorted_strictly.
  - intros t. rewrite elem_of_tag_list. unfold normalized_tags.
    by setoid_rewrite elem_of_add_item_token.
  - by vm_compute.
Qed.

(** C3, as stated, fails: the elements of a sequence reach the vocabulary as
    they are, so the list [" a ", ""] gives the entries "" and " a ". *)
Lemma tag_list_sequence_counterexample :
  let df := [tagged (CSeq [EStr (py " a "); EStr []])] in
  tag_list (U:=ascii_cjk) (Some df) = [[]; py " a "]
  ∧ ¬ (∀ t, t ∈ tag_list (U:=ascii_cjk) (Some df) → t ≠ [] ∧ trimmed (U:=ascii_cjk) t).
Proof.
  intros df.
  assert (Hlist : tag_list (U:=ascii_cjk) (Some df) = [[]; py " a "])
    by (vm_compute; reflexivity).
  split; [exact Hlist|]. intros Hall.
  destruct (Hall []) as [Hne _].
  - rewrite Hlist. apply list_elem_of_here.
  - exact (Hne eq_refl).
Qed.

(** C3, amended: every token of a string-valued field is non-empty and has no
    whitespace at either end; the tokens of a sequence-valued field are the
    [str()] of its elements, as they are; the tag list has no duplicates, and
    each of its entries is non-empty and trimmed unless it is the [str()] of
    an element of a sequence or of an object that is not [None]. *)
Theorem string_tokens_trimmed `{U : Unicode} :
  (∀ s t, t ∈ add_item ∅ (CStr s) → t ≠ [] ∧ trimmed t)
  ∧ (∀ l t, t ∈ add_item ∅ (CSeq l) ↔ ∃ e, e ∈ l ∧ t = str_elem e)
  ∧ (∀ df : DataFrame, NoDup (tag_list (Some df)))
  ∧ (∀ (df : DataFrame) t, t ∈ tag_list (Some df) →
       (t ≠ [] ∧ trimmed t)
       ∨ ∃ d, d ∈ df ∧
           match at_column (py "tags") d with
           | CStr _ => False
           | CSeq l => ∃ e, e ∈ l ∧ t = str_elem e
           | CObj o => o ≠ ONone ∧ t = str_obj o
           end).
Proof.
  assert (Hstr : ∀ s t, t ∈ add_item ∅ (CStr s) → t ≠ [] ∧ trimmed t).
  { intros s t. rewrite elem_of_add_item_token. intros (Hne & p & _ & ->).
    split; [done|apply strip_trimmed]. }
  split_and!.
  - exact Hstr.
  - intros l t. apply (elem_of_add_item_token (CSeq l)).
  - intros df. unfold tag_list. destruct (df_empty df); [constructor|].
    apply NoDup_sorted.
  - intros df t. rewrite elem_of_tag_list. intros (_ & d & Hd & Ht).
    unfold normalized_tags in Ht.
    destruct (at_column (py "tags") d) as [s|l|o] eqn:Hcell.
    + left. by apply (Hstr s).
    + right. exists d. split; [done|]. rewrite Hcell.
      by apply (elem_of_add_item_token (CSeq l)).
    + right. exists d. split; [done|]. rewrite Hcell.
      apply elem_of_add_item_token in Ht. by destruct o.
Qed.

(** ** Suggestions *)

Section suggestions.
Context `{U : Unicode}.

Lemma truthy_false s : truthy s = false ↔ s = [].
Proof.
  unfold truthy. rewrite negb_false_iff. apply bool_decide_eq_true.
Qed.

Lemma truthy_true s : truthy s = true ↔ s ≠ [].
Proof.
  unfold truthy. rewrite negb_true_iff. apply bool_decide_eq_false.
Qed.

Lemma filter_all {A} (f : A → bool) (l : list A) :
  (∀ x, x ∈ l → f x = true) → List.filter f l = l.
Proof.
  induction l as [|x l IH]; intros Hall; simpl; [done|].
  rewrite (Hall x) by left. f_equal. apply IH. intros y Hy. apply Hall. by right.
Qed.

Lemma filter_none {A} (f : A → bool) (l : list A) :
  (∀ x, x ∈ l → f x = false) → List.filter f l = [].
Proof.
  induction l as [|x l IH]; intros Hall; simpl; [done|].
  rewrite (Hall x) by left. apply IH. intros y Hy. apply Hall. by right.
Qed.

Lemma popup_entries_empty_query (tag_list : list pystr) prefix :
  strip prefix = [] → popup_entries tag_list prefix = tag_list.
Proof.
  intros Hq. unfold popup_entries. apply filter_all. intros t _.
  apply truthy_false in Hq. by rewrite Hq.
Qed.

Lemma elem_of_popup_entries (tag_list : list pystr) prefix t :
  t ∈ popup_entries tag_list prefix ↔
  t ∈ tag_list
  ∧ (strip prefix = [] ∨ ∃ pre post, lower t = pre ++ lower (strip prefix) ++ post).
Proof.
  unfold popup_entries.
  rewrite elem_of_List_filter, orb_true_iff, negb_true_iff, truthy_false.
  by rewrite str_contains_spec.
Qed.

Lemma popup_entries_no_match (tag_list : list pystr) prefix :
  strip prefix ≠ [] →
  (∀ t, t ∈ tag_list → ¬ ∃ pre post, lower t = pre ++ lower (strip prefix) ++ post) →
  popup_entries tag_list prefix = [].
Proof.
  intros Hq Hno. unfold popup_entries. apply filter_none. intros t Ht.
  apply truthy_true in Hq. rewrite Hq. simpl.
  destruct (str_contains _ _) eqn:E; [|done].
  apply str_contains_spec in E. by destruct (Hno t Ht).
Qed.

Lemma spec_suggest_popup_entries (tag_list : list pystr) prefix limit :
  spec_suggest tag_list (strip prefix) limit = take limit (popup_entries tag_list prefix).
Proof.
  unfold spec_suggest, popup_entries. do 2 f_equal.
  unfold truthy. by rewrite negb_involutive.
Qed.
End suggestions.

(** C4, as stated, fails: with eleven tags and the empty query the popup
    lists all eleven, where the first ten are claimed; the value 10 of the
    code is the number of rows of the completer that are on screen at once,
    and nothing truncates the list of suggestions. *)
Lemma show_tag_popup_uncapped_counterexample :
  let letters := py <$> ["a"; "b"; "c"; "d"; "e"; "f"; "g"; "h"; "i"; "j"; "k"]%string in
  let df := [tagged (CSeq (EStr <$> letters))] in
  let self := _update_tag_completer (U:=ascii_cjk)
                {| checkpoint := Some df; _tag_list := []; _tag_popup := None |} in
  _tag_list self = letters
  ∧ items <$> _tag_popup (_show_tag_popup (U:=ascii_cjk) self []) = Some letters
  ∧ spec_suggest (U:=ascii_cjk) (_tag_list self) [] max_visible_items
    = py <$> ["a"; "b"; "c"; "d"; "e"; "f"; "g"; "h"; "i"; "j"]%string
  ∧ items <$> _tag_popup (_show_tag_popup (U:=ascii_cjk) self [])
    ≠ Some (spec_suggest (U:=ascii_cjk) (_tag_list self) [] max_visible_items).
Proof. split_and!; vm_compute; (reflexivity || discriminate). Qed.

(** C4, amended: after the tag list is rebuilt, the popup for a query holds
    the entries of the sorted vocabulary that contain the stripped query as a
    substring, both in lower case, in vocabulary order and without a cap: all
    of the vocabulary when the stripped query is empty, nothing when it is not
    empty and occurs in no entry; the capped suggestions of the specification
    are the first [limit] of these entries. *)
Theorem show_tag_popup_filters `{U : Unicode} (self : QueshiWindow) (prefix : pystr) :
  let vocabulary := tag_list (checkpoint self) in
  ∃ popup,
    _tag_popup (_show_tag_popup (_update_tag_completer self) prefix) = Some popup
    ∧ items popup `sublist_of` vocabulary
    ∧ (∀ t, t ∈ items popup ↔
            t ∈ vocabulary
            ∧ (strip prefix = []
               ∨ ∃ pre post, lower t = pre ++ lower (strip prefix) ++ post))
    ∧ (strip prefix = [] → items popup = vocabulary)
    ∧ (strip prefix ≠ [] →
       (∀ t, t ∈ vocabulary →
             ¬ ∃ pre post, lower t = pre ++ lower (strip prefix) ++ post) →
       items popup = [])
    ∧ (∀ limit, spec_suggest vocabulary (strip prefix) limit = take limit (items popup)).
Proof.
  intros vocabulary.
  exists {| items := popup_entries vocabulary prefix;
            visible := match popup_entries vocabulary prefix with
                       | [] => false | _ :: _ => true end |}.
  split_and!.
  - unfold _show_tag_popup, _update_tag_completer. simpl.
    by destruct (_tag_popup self).
  - apply filter_sublist.
  - apply elem_of_popup_entries.
  - apply popup_entries_empty_query.
  - apply popup_entries_no_match.
  - apply spec_suggest_popup_entries.
Qed.

(** ** The loader *)

Lemma first_existing_app env name l1 l2 :
  first_existing env name (l1 ++ l2)
  = match first_existing env name l1 with
    | Some p => Some p
    | None => first_existing env name l2
    end.
Proof.
  induction l1 as [|d l1 IH]; simpl; [done|].
  destruct (truthy d); [|done]. by destruct (path_exists env _).
Qed.

Lemma first_existing_falsy env name d l :
  truthy d = false → first_existing env name (d :: l) = first_existing env name l.
Proof. intros Hd. simpl. by rewrite Hd. Qed.

Lemma first_existing_filter env name l :
  first_existing env name l = first_existing env name (List.filter truthy l).
Proof.
  induction l as [|d l IH]; simpl; [done|].
  destruct (truthy d) eqn:Hd; simpl; [|done]. by rewrite Hd, IH.
Qed.

(** the empty directories that [candidates] leaves out are skipped by the
    loop in any case *)
Lemma find_resource_search_order env name :
  _find_resource env name = first_existing env name (search_order env).
Proof.
  unfold _find_resource.
  rewrite (first_existing_filter _ _ (candidates env)).
  rewrite (first_existing_filter _ _ (search_order env)).
  f_equal. unfold candidates, search_order, bundled_dirs, program_dirs.
  destruct (frozen env), (_MEIPASS env) as [meipass|],
    (file_dir env) as [script_dir|e]; simpl;
    repeat match goal with
           | |- context [truthy ?d] => destruct (truthy d) eqn:?; simpl
           end;
    repeat match goal with H : truthy _ = _ |- _ => rewrite H; simpl end;
    done.
Qed.

Lemma first_existing_spec env name l :
  match first_existing env name l with
  | Some p =>
      ∃ pre d post, l = pre ++ d :: post ∧ d ≠ [] ∧ p = path_join env d name
        ∧ path_exists env p = true
        ∧ ∀ d', d' ∈ pre → d' = [] ∨ path_exists env (path_join env d' name) = false
  | None => ∀ d, d ∈ l → d = [] ∨ path_exists env (path_join env d name) = false
  end.
Proof.
  induction l as [|d l IH]; simpl.
  - by intros d ?%elem_of_nil.
  - destruct (truthy d) eqn:Hd.
    + destruct (path_exists env (path_join env d name)) eqn:Hex.
      * exists [], d, l. split_and!; try done.
        -- by apply truthy_true.
        -- by intros d' ?%elem_of_nil.
      * destruct (first_existing env name l) as [p|].
        -- destruct IH as (pre & d0 & post & -> & Hne & -> & Hp & Hpre).
           exists (d :: pre), d0, post. split_and!; try done.
           intros d' [->|Hd']%elem_of_cons; [by right|by apply Hpre].
        -- intros d' [->|Hd']%elem_of_cons; [by right|by apply IH].
    + apply truthy_false in Hd as ->.
      destruct (first_existing env name l) as [p|].
      * destruct IH as (pre & d0 & post & -> & Hne & -> & Hp & Hpre).
        exists ([] :: pre), d0, post. split_and!; try done.
        intros d' [->|Hd']%elem_of_cons; [by left|by apply Hpre].
      * intros d' [->|Hd']%elem_of_cons; [by left|by apply IH].
Qed.

Lemma first_existing_None env name l :
  (∀ d, d ∈ l → path_exists env (path_join env d name) = false) →
  first_existing env name l = None.
Proof.
  induction l as [|d l IH]; intros Hall; simpl; [done|].
  rewrite (Hall d) by left. rewrite IH; [by destruct (truthy d)|].
  intros d' Hd'. apply Hall. by right.
Qed.

Lemma load_dishes_found env p :
  _find_resource env (py "dishes.txt") = Some p → p ≠ [] →
  load_dishes env
  = (content ← read_text env p;
     dishes ← exec_content env content;
     mret (pd_DataFrame (default [] dishes))).
Proof.
  intros Hfind Hp. unfold load_dishes. rewrite Hfind.
  apply truthy_true in Hp. by rewrite Hp.
Qed.

(** C5: where the data file exists in none of the directories of the search
    order, [load_dishes] returns the empty frame and raises nothing. *)
Theorem load_dishes_no_file (env : Env) :
  (∀ d, d ∈ search_order env →
        path_exists env (path_join env d (py "dishes.txt")) = false) →
  load_dishes env = Ok (pd_DataFrame []) ∧ df_empty (pd_DataFrame []) = true.
Proof.
  intros Hnone. split; [|done]. unfold load_dishes.
  rewrite find_resource_search_order, first_existing_None by done.
  destruct (file_dir env) as [base_dir|e] eqn:Hfile; [|done].
  rewrite Hnone; [done|].
  unfold search_order, program_dirs. rewrite Hfile.
  rewrite !elem_of_app. right. left. right. apply list_elem_of_here.
Qed.

Lemma load_dishes_no_file_witness :
  (∀ d, d ∈ search_order no_files →
        path_exists no_files (path_join no_files d (py "dishes.txt")) = false)
  ∧ load_dishes no_files = Ok (pd_DataFrame [])
  ∧ df_empty (pd_DataFrame []) = true.
Proof.
  assert (Hnone : ∀ d, d ∈ search_order no_files →
            path_exists no_files (path_join no_files d (py "dishes.txt")) = false)
    by (intros d _; reflexivity).
  split; [exact Hnone|]. exact (load_dishes_no_file no_files Hnone).
Defined.

(** C7: [_find_resource] returns the path of the named file in the first
    directory of the search order (the bundled resource directory; the
    directories next to the running program, the executable's when packaged
    and then the script's; the current working directory) that is not the
    empty string and where the file exists, and nothing where there is none;
    [load_dishes] reads the file at that path. *)
Theorem find_resource_first_in_order (env : Env) (name : pystr) :
  match _find_resource env name with
  | Some p =>
      ∃ pre d post, search_order env = pre ++ d :: post ∧ d ≠ []
        ∧ p = path_join env d name ∧ path_exists env p = true
        ∧ ∀ d', d' ∈ pre → d' = [] ∨ path_exists env (path_join env d' name) = false
  | None =>
      ∀ d, d ∈ search_order env →
           d = [] ∨ path_exists env (path_join env d name) = false
  end
  ∧ ∀ p, _find_resource env (py "dishes.txt") = Some p → p ≠ [] →
         load_dishes env
         = (content ← read_text env p;
            dishes ← exec_content env content;
            mret (pd_DataFrame (default [] dishes))).
Proof.
  split.
  - rewrite find_resource_search_order. apply first_existing_spec.
  - apply load_dishes_found.
Qed.

(** C8, as stated, fails: a data file that does not parse makes [load_dishes]
    raise the exception of [exec] itself; no [LoadError] is raised and no path
    is attached. *)
Lemma load_dishes_raw_exception_counterexample :
  let env := script_env [py "/app/dishes.txt"] (py "dishes = [") (Raise SyntaxError) in
  _find_resource env (py "dishes.txt") = Some (py "/app/dishes.txt")
  ∧ load_dishes env = Raise SyntaxError
  ∧ ∀ path cause, load_dishes env ≠ Raise (LoadError path cause).
Proof.
  intros env.
  assert (Hload : load_dishes env = Raise SyntaxError) by (vm_compute; reflexivity).
  split_and!.
  - vm_compute. reflexivity.
  - exact Hload.
  - intros path cause. rewrite Hload. discriminate.
Qed.

(** C8, amended: where the data file is found and read but executing its
    content raises, [load_dishes] raises that same exception, unwrapped and
    with no path, and returns no frame, not even of a part of the records;
    handling it is left to the caller. *)
Theorem load_dishes_exec_error (env : Env) (p content : pystr) (e : exn) :
  _find_resource env (py "dishes.txt") = Some p → p ≠ [] →
  read_text env p = Ok content →
  exec_content env content = Raise e →
  load_dishes env = Raise e.
Proof.
  intros Hfind Hp Hread Hexec.
  rewrite (load_dishes_found env p) by done.
  rewrite Hread. simpl. by rewrite Hexec.
Qed.

Lemma load_dishes_exec_error_witness :
  let env := script_env [py "/app/dishes.txt"] (py "dishes = [") (Raise SyntaxError) in
  load_dishes env = Raise SyntaxError.
Proof.
  intros env.
  apply (load_dishes_exec_error env (py "/app/dishes.txt") (py "dishes = [") SyntaxError).
  - vm_compute. reflexivity.
  - discriminate.
  - vm_compute. reflexivity.
  - vm_compute. reflexivity.
Defined.


(** a data file with two records, found next to the script: the search
    without a catalog argument returns the one record that has the tag *)
Example search_by_tag_default_catalog_example :
  let rice := tagged (CSeq [EStr (py "rice")]) in
  let soup := tagged (CSeq [EStr (py "soup")]) in
  let env := script_env [py "/app/dishes.txt"] (py "dishes = [...]")
                        (Ok (Some [rice; soup])) in
  search_by_tag env (py "soup") None = Ok [soup].
Proof. vm_compute. reflexivity. Qed.

(** ** Fields that are neither strings nor sequences *)

Lemma columns_tagged c : columns [tagged c] = {[py "tags"]}.
Proof.
  unfold columns, tagged. simpl.
  by rewrite dom_singleton_L, union_empty_r_L.
Qed.

Lemma at_column_tagged c : at_column (py "tags") (tagged c) = c.
Proof. unfold at_column, tagged. by rewrite lookup_singleton_eq. Qed.

Lemma sorted_singleton t : sorted {[t]} = [t].
Proof. unfold sorted. by rewrite elements_singleton. Qed.

Lemma tag_list_tagged `{U : Unicode} c :
  tag_list (Some [tagged c]) = sorted (add_item ∅ c).
Proof.
  unfold tag_list, df_empty, getitem. rewrite columns_tagged.
  rewrite bool_decide_eq_false_2 by done.
  rewrite bool_decide_eq_false_2.
  2:{ intros Hempty. apply (not_elem_of_empty (C:=gset pystr) (py "tags")).
      rewrite <- Hempty. by apply elem_of_singleton. }
  simpl. rewrite decide_True by by apply elem_of_singleton.
  simpl. by rewrite at_column_tagged.
Qed.

(** a field that is [None] adds nothing to the tag set and matches no tag *)
Lemma none_tags_contribute_nothing `{U : Unicode} (X : gset pystr) (tag : pystr) :
  add_item X (CObj ONone) = X ∧ has_tag tag (CObj ONone) = false.
Proof. done. Qed.

(** C6, evaluated where it fails: of two records, the first tagged ["x"] and
    the second with no [tags] key, the second reads as the float [nan] in the
    [tags] column; it is in no search result, but the tag list gets the entry
    "nan" from it. *)
Theorem absent_tags_add_nan :
  let df := [tagged (CSeq [EStr (py "x")]); named "b"] in
  at_column (py "tags") (named "b") = CObj ONaN
  ∧ tag_list (U:=ascii_cjk) (Some df) = [py "nan"; py "x"]
  ∧ search_by_tag no_files (py "nan") (Some df) = Ok []
  ∧ search_by_tag no_files (py "x") (Some df) = Ok [tagged (CSeq [EStr (py "x")])].
Proof. split_and!; vm_compute; reflexivity. Qed.

(** C10, as stated, fails: [None] is neither a string nor iterable (the
    membership test raises on it), and it adds no token at all, where its
    string form "None" is claimed. *)
Lemma none_tags_no_token_counterexample :
  py_in (py "None") (CObj ONone) = Raise TypeError
  ∧ tag_list (U:=ascii_cjk) (Some [tagged (CObj ONone)]) = []
  ∧ tag_list (U:=ascii_cjk) (Some [tagged (CObj ONone)]) ≠ [str_obj ONone].
Proof. split_and!; vm_compute; (reflexivity || discriminate). Qed.

(** C10, amended: on any frame [search_by_tag] returns a result unless the
    frame has no [tags] column, the one case in which it raises (a
    [KeyError]); a field on which the membership test raises, such as [None]
    or a number, is a non-match and its record is in no result; and in the tag
    list a field that is neither a string nor iterable and is not [None]
    gives one token, its [str()], as it is. *)
Theorem search_total_object_token `{U : Unicode} :
  (∀ (env : Env) (tag : pystr) (df : DataFrame),
      (∃ r, search_by_tag env tag (Some df) = Ok r)
      ∨ ((py "tags" ∉ columns df)
         ∧ search_by_tag env tag (Some df) = Raise (KeyError (py "tags"))))
  ∧ (∀ (tag : pystr) c e, py_in tag c = Raise e → has_tag tag c = false)
  ∧ (∀ (tag : pystr) o, has_tag tag (CObj o) = false)
  ∧ (∀ (env : Env) (tag : pystr) (df r : DataFrame) (d : dish) o,
       search_by_tag env tag (Some df) = Ok r →
       at_column (py "tags") d = CObj o → d ∉ r)
  ∧ (∀ o (X : gset pystr), o ≠ ONone → add_item X (CObj o) = {[str_obj o]} ∪ X)
  ∧ (∀ o, o ≠ ONone → tag_list (Some [tagged (CObj o)]) = [str_obj o]).
Proof.
  split_and!.
  - intros env tag df. destruct (decide (py "tags" ∈ columns df)) as [Hcol|Hcol].
    + left. eexists. by apply search_by_tag_Some.
    + right. split; [done|]. by apply search_by_tag_no_column.
  - intros tag c e Hraise. unfold has_tag. by rewrite Hraise.
  - done.
  - intros env tag df r d o Hsearch Hcell Hin.
    destruct (decide (py "tags" ∈ columns df)) as [Hcol|Hcol].
    + rewrite search_by_tag_Some in Hsearch by done. injection Hsearch as <-.
      apply elem_of_List_filter in Hin as [_ Hmatch].
      by rewrite Hcell in Hmatch.
    + by rewrite search_by_tag_no_column in Hsearch.
  - intros o X Ho. by destruct o.
  - intros o Ho. rewrite tag_list_tagged.
    destruct o; [done| |]; simpl; by rewrite union_empty_r_L, sorted_singleton.
Qed.

(** * Further properties of the code *)

(** ** Searching *)

Lemma load_dishes_absent (env : Env) :
  (∀ d, d ∈ search_order env →
        path_exists env (path_join env d (py "dishes.txt")) = false) →
  load_dishes env = Ok (pd_DataFrame []).
Proof.
  intros Hnone. unfold load_dishes.
  rewrite find_resource_search_order, first_existing_None by done.
  destruct (file_dir env) as [base_dir|e] eqn:Hfile; [|done].
  rewrite Hnone; [done|].
  unfold search_order, program_dirs. rewrite Hfile.
  rewrite !elem_of_app. right. left. right. apply list_elem_of_here.
Qed.

(** X1: with no data file in any directory of the search order, a search
    without a catalog argument does not return an empty result: the empty
    frame that is loaded has no [tags] column and the search raises
    [KeyError]. *)
Theorem search_by_tag_no_data_file (env : Env) (tag : pystr) :
  (∀ d, d ∈ search_order env →
        path_exists env (path_join env d (py "dishes.txt")) = false) →
  search_by_tag env tag None = Raise (KeyError (py "tags")).
Proof.
  intros Hnone. unfold search_by_tag.
  rewrite load_dishes_absent by done. simpl.
  unfold getitem. rewrite decide_False; [done|].
  unfold pd_DataFrame. rewrite columns_nil. apply not_elem_of_empty.
Qed.

Lemma search_by_tag_no_data_file_witness :
  (∀ d, d ∈ search_order no_files →
        path_exists no_files (path_join no_files d (py "dishes.txt")) = false)
  ∧ search_by_tag no_files (py "rice") None = Raise (KeyError (py "tags")).
Proof.
  assert (Hnone : ∀ d, d ∈ search_order no_files →
            path_exists no_files (path_join no_files d (py "dishes.txt")) = false)
    by (intros d _; reflexivity).
  split; [exact Hnone|].
  exact (search_by_tag_no_data_file no_files (py "rice") Hnone).
Defined.

(** X2: the empty tag is a substring of every string, so a search for it
    returns every record whose field is a string, besides the records whose
    sequence has the empty string as an element, and no other. *)
Theorem search_by_tag_empty_tag (env : Env) (df : DataFrame) :
  py "tags" ∈ columns df →
  ∃ r, search_by_tag env [] (Some df) = Ok r
    ∧ ∀ d, d ∈ r ↔
           d ∈ df ∧ match at_column (py "tags") d with
                    | CStr _ => True
                    | CSeq l => EStr [] ∈ l
                    | CObj _ => False
                    end.
Proof.
  intros Hcol. eexists. split; [by apply search_by_tag_Some|].
  intros d. rewrite elem_of_List_filter, has_tag_raw_match. unfold raw_match.
  destruct (at_column (py "tags") d) as [s|l|o]; [|done|done].
  split; intros [Hd _]; (split; [done|]); [done|]. by exists [], s.
Qed.

Lemma search_by_tag_empty_tag_witness :
  let df := [tagged (CStr (py "spicy,rice")); tagged (CSeq [EStr (py "rice")])] in
  py "tags" ∈ columns df
  ∧ ∃ r, search_by_tag no_files [] (Some df) = Ok r
    ∧ ∀ d, d ∈ r ↔
           d ∈ df ∧ match at_column (py "tags") d with
                    | CStr _ => True
                    | CSeq l => EStr [] ∈ l
                    | CObj _ => False
                    end.
Proof.
  intros df.
  assert (Hcol : py "tags" ∈ columns df) by by_compute.
  split; [exact Hcol|]. exact (search_by_tag_empty_tag no_files df Hcol).
Defined.

(** ** Suggestions lead to results *)

Section found.
Context `{U : Unicode}.

Lemma strip_infix p : ∃ k1 k2, p = k1 ++ strip p ++ k2.
Proof.
  unfold strip. destruct (lstrip_suffix p) as [k1 Hk1].
  destruct (rstrip_prefix (lstrip p)) as [k2 Hk2].
  exists k1, k2. by rewrite <- Hk2.
Qed.

(** a token of a string field occurs in the field, and is made of word
    characters *)
Lemma string_token_infix s t :
  t ∈ add_item ∅ (CStr s) →
  Forall (λ c, is_word c = true) t ∧ ∃ pre post, s = pre ++ t ++ post.
Proof.
  rewrite elem_of_add_item_token. intros (_ & p & Hp & ->).
  destruct Hp as (_ & pre & post & -> & Hword & _).
  destruct (strip_infix p) as (k1 & k2 & Hk). split.
  - rewrite Hk in Hword.
    apply Forall_app in Hword as [_ Hword]. by apply Forall_app in Hword as [Hword _].
  - exists (pre ++ k1), (k2 ++ post). rewrite Hk at 1. by rewrite <- !app_assoc.
Qed.

Lemma token_raw_match (d : dish) t :
  text_or_none (at_column (py "tags") d) →
  t ∈ normalized_tags d → raw_match t d.
Proof.
  unfold normalized_tags, raw_match.
  destruct (at_column (py "tags") d) as [s|l|o]; simpl.
  - intros _ Ht. by apply string_token_infix in Ht as [_ Ht].
  - intros Hl Ht. apply (elem_of_add_item_token (CSeq l)) in Ht as (e & He & ->).
    rewrite Forall_forall in Hl. by destruct (Hl e He) as [s ->].
  - destruct o; [|done|done]. by intros _ ?%not_elem_of_empty.
Qed.
End found.

(** X3: every token of a string field is made of word characters only and
    occurs in the field as a substring. *)
Theorem string_tokens_word_infix `{U : Unicode} (s t : pystr) :
  t ∈ add_item ∅ (CStr s) →
  Forall (λ c, is_word c = true) t ∧ ∃ pre post, s = pre ++ t ++ post.
Proof. apply string_token_infix. Qed.

Lemma string_tokens_word_infix_witness :
  let s := py " hot, sweet_sour " in
  let t := py "sweet_sour" in
  t ∈ add_item (U:=ascii_cjk) ∅ (CStr s)
  ∧ Forall (λ c, is_word (U:=ascii_cjk) c = true) t
  ∧ ∃ pre post, s = pre ++ t ++ post.
Proof.
  intros s t.
  assert (Ht : t ∈ add_item (U:=ascii_cjk) ∅ (CStr s)) by by_compute.
  split; [exact Ht|]. exact (string_tokens_word_infix (U:=ascii_cjk) s t Ht).
Defined.

(** X4: where every [tags] field is a string, a sequence of strings or
    [None], every entry of the tag list is found by the search: searching
    for it returns at least one record, one that has it as a token. *)
Theorem suggestion_finds_record `{U : Unicode}
    (env : Env) (df : DataFrame) (t : pystr) :
  (∀ d, d ∈ df → text_or_none (at_column (py "tags") d)) →
  t ∈ tag_list (Some df) →
  ∃ r d, search_by_tag env t (Some df) = Ok r ∧ d ∈ r ∧ t ∈ normalized_tags d.
Proof.
  intros Htext Ht. apply elem_of_tag_list in Ht as (Hcol & d & Hd & Ht).
  eexists _, d. split; [by apply search_by_tag_Some|]. split; [|done].
  apply elem_of_List_filter. split; [done|].
  apply has_tag_raw_match, token_raw_match; auto.
Qed.

Lemma suggestion_finds_record_witness :
  let df := [tagged (CStr (py "spicy,rice")); tagged (CSeq [EStr (py "soup")]);
             tagged (CObj ONone)] in
  (∀ d, d ∈ df → text_or_none (at_column (py "tags") d))
  ∧ py "rice" ∈ tag_list (U:=ascii_cjk) (Some df)
  ∧ ∃ r d, search_by_tag no_files (py "rice") (Some df) = Ok r ∧ d ∈ r
           ∧ py "rice" ∈ normalized_tags (U:=ascii_cjk) d.
Proof.
  intros df.
  assert (Htext : ∀ d, d ∈ df → text_or_none (at_column (py "tags") d)).
  { intros d Hd. repeat (apply elem_of_cons in Hd as [->|Hd]).
    - rewrite at_column_tagged. exact I.
    - rewrite at_column_tagged. repeat constructor. by eexists.
    - rewrite at_column_tagged. exact I.
    - by apply elem_of_nil in Hd. }
  assert (Ht : py "rice" ∈ tag_list (U:=ascii_cjk) (Some df)).
  { replace (tag_list (U:=ascii_cjk) (Some df))
      with [py "rice"; py "soup"; py "spicy"] by (vm_compute; reflexivity).
    apply list_elem_of_here. }
  split; [exact Htext|]. split; [exact Ht|].
  exact (suggestion_finds_record (U:=ascii_cjk) no_files df (py "rice") Htext Ht).
Defined.

(** ** The vocabulary depends on the records only as a set *)

Section same_records.
Context `{U : Unicode}.

Lemma elem_of_columns (df : DataFrame) (key : pystr) :
  key ∈ columns df ↔ ∃ d, d ∈ df ∧ is_Some (d !! key).
Proof.
  unfold columns. rewrite elem_of_union_list. split.
  - intros (X & HX & Hkey). apply list_elem_of_fmap in HX as (d & -> & Hd).
    exists d. split; [done|]. by apply elem_of_dom.
  - intros (d & Hd & Hkey). exists (dom d). split.
    + apply list_elem_of_fmap. eauto.
    + by apply elem_of_dom.
Qed.

Lemma tag_list_nil : tag_list (Some []) = [].
Proof. done. Qed.

Lemma sorted_empty : sorted ∅ = [].
Proof. unfold sorted. by rewrite elements_empty. Qed.

(** the tag list as the sorted set of the tokens of the records *)
Lemma tag_list_sorted_set (df : DataFrame) :
  tag_list (Some df)
  = sorted (if decide (py "tags" ∈ columns df)
            then foldl add_item ∅ (at_column (py "tags") <$> df) else ∅).
Proof.
  unfold tag_list. destruct (df_empty df) eqn:Hempty.
  - apply df_empty_no_tags in Hempty. rewrite decide_False by done.
    by rewrite sorted_empty.
  - unfold getitem. by destruct (decide _).
Qed.
End same_records.

(** X5: two catalogs with the same records, in whatever order and however
    often repeated, have the same tag list. *)
Theorem tag_list_same_records `{U : Unicode} (df df' : DataFrame) :
  (∀ d, d ∈ df ↔ d ∈ df') →
  tag_list (Some df) = tag_list (Some df').
Proof.
  intros Hsame. rewrite !tag_list_sorted_set. f_equal.
  assert (Hcol : py "tags" ∈ columns df ↔ py "tags" ∈ columns df').
  { rewrite !elem_of_columns. by setoid_rewrite Hsame. }
  destruct (decide (py "tags" ∈ columns df)) as [Hin|Hin].
  - rewrite decide_True by tauto. apply set_eq. intros t.
    rewrite !elem_of_foldl_add_item. setoid_rewrite list_elem_of_fmap.
    split; (intros [?|(c & (d & -> & Hd) & Ht)]; [by left|]; right;
            exists (at_column (py "tags") d); split; [|done];
            exists d; split; [done|]; by apply Hsame).
  - by rewrite decide_False by tauto.
Qed.

Lemma tag_list_same_records_witness :
  let a := tagged (CStr (py "spicy,rice")) in
  let b := tagged (CSeq [EStr (py "soup")]) in
  (∀ d, d ∈ [a; b] ↔ d ∈ [b; a; b])
  ∧ tag_list (U:=ascii_cjk) (Some [a; b]) = tag_list (U:=ascii_cjk) (Some [b; a; b]).
Proof.
  intros a b.
  assert (Hsame : ∀ d, d ∈ [a; b] ↔ d ∈ [b; a; b]).
  { intros d. rewrite !elem_of_cons. pose proof (elem_of_nil d). tauto. }
  split; [exact Hsame|].
  exact (tag_list_same_records (U:=ascii_cjk) [a; b] [b; a; b] Hsame).
Defined.

(** ** Suggestions while typing *)

Lemma filter_sublist_impl {A} (f g : A → bool) (l : list A) :
  (∀ x, x ∈ l → f x = true → g x = true) →
  List.filter f l `sublist_of` List.filter g l.
Proof.
  induction l as [|x l IH]; intros Himpl; simpl; [constructor|].
  assert (IH' : List.filter f l `sublist_of` List.filter g l).
  { apply IH. intros y Hy. apply Himpl. by right. }
  destruct (f x) eqn:Hf.
  - rewrite (Himpl x) by (done || left). by constructor.
  - destruct (g x); [by constructor|done].
Qed.

(** X6: a query that contains another, both stripped and in lower case, and
    is not empty after stripping, gets a subsequence of the other's
    suggestions: typing more never adds a suggestion. *)
Theorem popup_entries_narrow `{U : Unicode} (tags : list pystr) (q1 q2 : pystr) :
  strip q2 ≠ [] →
  (∃ a b, lower (strip q2) = a ++ lower (strip q1) ++ b) →
  popup_entries tags q2 `sublist_of` popup_entries tags q1.
Proof.
  intros Hq2 (a & b & Hq). unfold popup_entries.
  apply filter_sublist_impl. intros t _.
  apply truthy_true in Hq2. rewrite Hq2. simpl.
  rewrite orb_true_iff, !str_contains_spec. intros (pre & post & Ht).
  right. exists (pre ++ a), (b ++ post). rewrite Ht, Hq.
  by rewrite <- !app_assoc.
Qed.

Lemma popup_entries_narrow_witness :
  let tags := [py "rice"; py "rich"; py "soup"] in
  strip (U:=ascii_cjk) (py "Ric") ≠ []
  ∧ (∃ a b, lower (Unicode:=ascii_cjk) (strip (U:=ascii_cjk) (py "Ric"))
            = a ++ lower (Unicode:=ascii_cjk) (strip (U:=ascii_cjk) (py " ri")) ++ b)
  ∧ popup_entries (U:=ascii_cjk) tags (py "Ric")
    `sublist_of` popup_entries (U:=ascii_cjk) tags (py " ri").
Proof.
  intros tags.
  assert (Hq2 : strip (U:=ascii_cjk) (py "Ric") ≠ []) by (vm_compute; discriminate).
  assert (Hq : ∃ a b, lower (Unicode:=ascii_cjk) (strip (U:=ascii_cjk) (py "Ric"))
            = a ++ lower (Unicode:=ascii_cjk) (strip (U:=ascii_cjk) (py " ri")) ++ b)
    by (exists [], (py "c"); vm_compute; reflexivity).
  split; [exact Hq2|]. split; [exact Hq|].
  exact (popup_entries_narrow (U:=ascii_cjk) tags (py " ri") (py "Ric") Hq2 Hq).
Defined.

(** ** The search handlers *)

Section handler_facts.
Context `{U : Unicode}.

Lemma strip_idemp s : strip (strip s) = strip s.
Proof. apply strip_id, strip_trimmed. Qed.

Lemma on_search_window env self : window (on_search env self).1 = window self.
Proof.
  unfold on_search. destruct (negb _); [done|].
  by destruct (search_by_tag _ _ _).
Qed.

Lemma menu_search_window env self answer :
  window (menu_search env self answer).1 = window self.
Proof.
  unfold menu_search. destruct answer as [tag|]; [|done].
  destruct (negb _); [done|]. by destruct (search_by_tag _ _ _).
Qed.

Lemma show_tag_popup_invariant self prefix :
  gui_invariant self →
  gui_invariant (with_window self (_show_tag_popup (window self) prefix)).
Proof.
  intros [Hsync (popup & Hpopup & Hvisible)].
  unfold gui_invariant, _show_tag_popup. simpl. rewrite Hpopup. simpl.
  split; [done|]. eexists. split; [done|]. simpl.
  by destruct (popup_entries _ _).
Qed.

Lemma hide_tag_popup_invariant (self : Gui) :
  gui_invariant self →
  gui_invariant (with_window self (_hide_tag_popup (window self))).
Proof.
  intros [Hsync (popup & Hpopup & Hvisible)].
  unfold gui_invariant, _hide_tag_popup. simpl. rewrite Hpopup. simpl.
  split; [done|]. eexists. split; [done|]. done.
Qed.

Lemma reload_invariant (self : Gui) (df : DataFrame) st :
  gui_invariant self →
  gui_invariant
    {| window := _update_tag_completer
                   {| checkpoint := Some df;
                      _tag_list := _tag_list (window self);
                      _tag_popup := _tag_popup (window self) |};
       entry := entry self; table := table self; status_label := st |}.
Proof.
  intros [Hsync (popup & Hpopup & Hvisible)].
  split; [done|]. simpl. rewrite Hpopup. eauto.
Qed.

Lemma load_data_invariant env self :
  gui_invariant self → gui_invariant (load_data env self).
Proof.
  intros Hinv. unfold load_data. destruct (load_dishes env) as [df|e].
  - by apply reload_invariant.
  - done.
Qed.

Lemma on_load_invariant env self path :
  gui_invariant self → gui_invariant (on_load env self path).1.
Proof.
  intros Hinv. unfold on_load. destruct (negb _); [done|].
  match goal with |- context [match ?m with Ok _ => _ | Raise _ => _ end] =>
    destruct m as [dishes|e] end; [|done].
  by apply reload_invariant.
Qed.

Lemma init_gui_invariant env : gui_invariant (init_gui env).
Proof.
  unfold init_gui, load_data. destruct (load_dishes env) as [df|e]; simpl.
  - split; [done|]. eexists. split; [done|]. done.
  - split; [done|]. eexists. split; [done|]. done.
Qed.

Lemma gui_step_invariant env self self' :
  gui_step env self self' → gui_invariant self → gui_invariant self'.
Proof.
  intros Hstep Hinv. destruct Hstep.
  - done.
  - by apply show_tag_popup_invariant.
  - by apply hide_tag_popup_invariant.
  - unfold gui_invariant. by rewrite on_search_window.
  - unfold gui_invariant. by rewrite menu_search_window.
  - unfold _on_popup_item_clicked, gui_invariant. rewrite on_search_window.
    by apply hide_tag_popup_invariant.
  - by apply load_data_invariant.
  - by apply on_load_invariant.
Qed.
End handler_facts.

(** X7: from the window as [__init__] leaves it, whatever the user does
    (typing, opening and closing the popup, searching from the entry, the menu
    or a suggestion, reloading the default data, loading a file) the tag list
    is that of the catalog the window holds, the popup exists, and it is on
    screen only while it has entries. *)
Theorem gui_invariant_reachable `{U : Unicode} (env : Env) (self : Gui) :
  rtc (gui_step env) (init_gui env) self → gui_invariant self.
Proof.
  revert self. apply rtc_ind_r.
  - apply init_gui_invariant.
  - intros mid self _ Hstep IH. by eapply gui_step_invariant.
Qed.

Lemma gui_invariant_reachable_witness :
  let env := script_env [py "/app/dishes.txt"] (py "dishes = [...]")
               (Ok (Some [tagged (CSeq [EStr (py "rice")])])) in
  let self := (on_search (U:=ascii_cjk) env
                 (with_entry (init_gui (U:=ascii_cjk) env) (py " rice "))).1 in
  rtc (gui_step (U:=ascii_cjk) env) (init_gui (U:=ascii_cjk) env) self
  ∧ gui_invariant (U:=ascii_cjk) self.
Proof.
  intros env self.
  assert (Hreach : rtc (gui_step (U:=ascii_cjk) env) (init_gui (U:=ascii_cjk) env) self).
  { eapply rtc_l; [apply step_edit|]. eapply rtc_l; [apply step_on_search|].
    apply rtc_refl. }
  split; [exact Hreach|].
  exact (gui_invariant_reachable (U:=ascii_cjk) env self Hreach).
Defined.

Section search_handlers.
Context `{U : Unicode}.

Lemma tag_list_entry_found (env : Env) (df : DataFrame) (t : pystr) :
  (∀ d, d ∈ df → text_or_none (at_column (py "tags") d)) →
  t ∈ tag_list (Some df) →
  ∃ d, d ∈ List.filter (λ d, has_tag t (at_column (py "tags") d)) df
       ∧ t ∈ normalized_tags d.
Proof.
  intros Htext Ht. apply elem_of_tag_list in Ht as (Hcol & d & Hd & Ht).
  exists d. split; [|done]. apply elem_of_List_filter. split; [done|].
  apply has_tag_raw_match, token_raw_match; auto.
Qed.

Lemma filter_length_le {A} (f : A → bool) (l : list A) :
  (List.length (List.filter f l) ≤ List.length l)%nat.
Proof. apply sublist_length, filter_sublist. Qed.
End search_handlers.

(** X8: [on_search] ignores whitespace around the text of the entry: the
    table, the status, the window and the message box are those for the
    stripped text. *)
Theorem on_search_ignores_whitespace `{U : Unicode} (env : Env) (self : Gui) :
  let shown := on_search env self in
  let shown' := on_search env (with_entry self (strip (entry self))) in
  table shown.1 = table shown'.1
  ∧ status_label shown.1 = status_label shown'.1
  ∧ window shown.1 = window shown'.1
  ∧ shown.2 = shown'.2.
Proof.
  unfold on_search. simpl. rewrite strip_idemp.
  destruct (negb _); [done|]. by destruct (search_by_tag _ _ _).
Qed.

(** X9: on a catalog with a [tags] column and with a tag in the entry,
    [on_search] shows no message box, puts the matching records into the
    table in catalog order, and reports their number, which is never more
    than the number of records of the catalog; the window and the entry are
    left as they are. *)
Theorem on_search_shows_matches `{U : Unicode}
    (env : Env) (self : Gui) (df : DataFrame) :
  checkpoint (window self) = Some df →
  py "tags" ∈ columns df →
  strip (entry self) ≠ [] →
  ∃ shown, on_search env self = (shown, None)
    ∧ table shown
      = List.filter (λ d, has_tag (strip (entry self)) (at_column (py "tags") d)) df
    ∧ status_label shown = SearchDone (List.length (table shown))
    ∧ (List.length (table shown) ≤ List.length df)%nat
    ∧ window shown = window self ∧ entry shown = entry self.
Proof.
  intros Hdf Hcol Htag. unfold on_search.
  apply truthy_true in Htag. rewrite Htag. simpl.
  rewrite Hdf, search_by_tag_Some by done.
  eexists. split; [done|]. simpl. split_and!; try done.
  apply filter_length_le.
Qed.

Lemma on_search_shows_matches_witness :
  let df := [tagged (CSeq [EStr (py "rice")]); tagged (CSeq [EStr (py "soup")])] in
  let self := {| window := {| checkpoint := Some df; _tag_list := [];
                              _tag_popup := None |};
                 entry := py " soup "; table := []; status_label := NotLoaded |} in
  ∃ shown, on_search (U:=ascii_cjk) no_files self = (shown, None)
    ∧ table shown
      = List.filter (λ d, has_tag (strip (U:=ascii_cjk) (entry self))
                                  (at_column (py "tags") d)) df
    ∧ status_label shown = SearchDone (List.length (table shown))
    ∧ (List.length (table shown) ≤ List.length df)%nat
    ∧ window shown = window self ∧ entry shown = entry self.
Proof.
  intros df self.
  apply (on_search_shows_matches (U:=ascii_cjk) no_files self df).
  - reflexivity.
  - by_compute.
  - vm_compute. discriminate.
Defined.

(** X10: started where no data file exists, the window holds the empty
    catalog, reports 0 records and has no suggestion, and every search with a
    tag in the entry ends in the error box with the [KeyError] of the missing
    [tags] column, the window staying as it was. *)
Theorem search_after_missing_file `{U : Unicode} (env : Env) (text : pystr) :
  (∀ d, d ∈ search_order env →
        path_exists env (path_join env d (py "dishes.txt")) = false) →
  strip text ≠ [] →
  checkpoint (window (init_gui env)) = Some (pd_DataFrame [])
  ∧ status_label (init_gui env) = DataLoaded 0
  ∧ _tag_list (window (init_gui env)) = []
  ∧ on_search env (with_entry (init_gui env) text)
    = (with_entry (init_gui env) text, Some (SearchFailed (KeyError (py "tags")))).
Proof.
  intros Hnone Htag.
  assert (Hinit : init_gui env
                  = {| window := {| checkpoint := Some (pd_DataFrame []);
                                    _tag_list := [];
                                    _tag_popup := Some {| items := []; visible := false |} |};
                       entry := []; table := pd_DataFrame [];
                       status_label := DataLoaded 0 |}).
  { unfold init_gui, load_data. by rewrite load_dishes_absent by done. }
  rewrite Hinit. split_and!; try done.
  unfold on_search. simpl. apply truthy_true in Htag. rewrite Htag. simpl.
  rewrite search_by_tag_no_column; [done|].
  unfold pd_DataFrame. rewrite columns_nil. apply not_elem_of_empty.
Qed.

Lemma search_after_missing_file_witness :
  checkpoint (window (init_gui (U:=ascii_cjk) no_files)) = Some (pd_DataFrame [])
  ∧ status_label (init_gui (U:=ascii_cjk) no_files) = DataLoaded 0
  ∧ _tag_list (window (init_gui (U:=ascii_cjk) no_files)) = []
  ∧ on_search (U:=ascii_cjk) no_files (with_entry (init_gui (U:=ascii_cjk) no_files) (py "rice"))
    = (with_entry (init_gui (U:=ascii_cjk) no_files) (py "rice"),
       Some (SearchFailed (KeyError (py "tags")))).
Proof.
  apply (search_after_missing_file (U:=ascii_cjk) no_files (py "rice")).
  - intros d _. reflexivity.
  - vm_compute. discriminate.
Defined.

(** X11: the search of the menu does what the search of the entry does for
    the same text: the same message box, table, status and window; only the
    entry keeps its own text. *)
Theorem menu_search_as_on_search `{U : Unicode}
    (env : Env) (self : Gui) (text : pystr) :
  let shown := menu_search env self (Some text) in
  let shown' := on_search env (with_entry self text) in
  shown.2 = shown'.2
  ∧ table shown.1 = table shown'.1
  ∧ status_label shown.1 = status_label shown'.1
  ∧ window shown.1 = window shown'.1
  ∧ entry shown.1 = entry self.
Proof.
  unfold menu_search, on_search. simpl.
  destruct (negb _); [done|]. by destruct (search_by_tag _ _ _).
Qed.

(** X12: where every [tags] field of the catalog is a string, a sequence of
    strings or [None], clicking a suggestion that is not empty and has no
    whitespace at its ends puts it into the entry, hides the popup and shows,
    without a message box, a table with at least one record that has the
    suggestion as a token. *)
Theorem popup_item_click_finds `{U : Unicode}
    (env : Env) (self : Gui) (df : DataFrame) (t : pystr) :
  checkpoint (window self) = Some df →
  (∀ d, d ∈ df → text_or_none (at_column (py "tags") d)) →
  t ∈ tag_list (Some df) →
  t ≠ [] → trimmed t →
  ∃ shown d, _on_popup_item_clicked env self t = (shown, None)
    ∧ d ∈ table shown ∧ t ∈ normalized_tags d
    ∧ entry shown = t
    ∧ status_label shown = SearchDone (List.length (table shown))
    ∧ window shown = _hide_tag_popup (window self).
Proof.
  intros Hdf Htext Ht Hne Htrim.
  destruct (tag_list_entry_found env df t Htext Ht) as (d & Hd & Htok).
  apply elem_of_tag_list in Ht as (Hcol & _).
  unfold _on_popup_item_clicked, on_search. simpl.
  rewrite strip_id by done. apply truthy_true in Hne. rewrite Hne. simpl.
  assert (Hcp : checkpoint (_hide_tag_popup (window self)) = Some df).
  { unfold _hide_tag_popup. by destruct (_tag_popup (window self)). }
  rewrite Hcp, search_by_tag_Some by done.
  eexists _, d. split; [done|]. simpl. by split_and!.
Qed.

Lemma popup_item_click_finds_witness :
  let df := [tagged (CStr (py "spicy,rice")); tagged (CSeq [EStr (py "soup")])] in
  let self := {| window := _update_tag_completer (U:=ascii_cjk)
                             {| checkpoint := Some df; _tag_list := [];
                                _tag_popup := None |};
                 entry := []; table := []; status_label := DataLoaded 2 |} in
  ∃ shown d, _on_popup_item_clicked (U:=ascii_cjk) no_files self (py "rice") = (shown, None)
    ∧ d ∈ table shown ∧ py "rice" ∈ normalized_tags (U:=ascii_cjk) d
    ∧ entry shown = py "rice"
    ∧ status_label shown = SearchDone (List.length (table shown))
    ∧ window shown = _hide_tag_popup (window self).
Proof.
  intros df self.
  apply (popup_item_click_finds (U:=ascii_cjk) no_files self df (py "rice")).
  - reflexivity.
  - intros d Hd. repeat (apply elem_of_cons in Hd as [->|Hd]).
    + rewrite at_column_tagged. exact I.
    + rewrite at_column_tagged. repeat constructor. by eexists.
    + by apply elem_of_nil in Hd.
  - replace (tag_list (U:=ascii_cjk) (Some df))
      with [py "rice"; py "soup"; py "spicy"] by (vm_compute; reflexivity).
    apply list_elem_of_here.
  - discriminate.
  - split; intros c Hc; injection Hc as <-; reflexivity.
Defined.

(** ** Loading *)

Lemma first_existing_first env name pre d post :
  d ≠ [] →
  path_exists env (path_join env d name) = true →
  (∀ d', d' ∈ pre → d' = [] ∨ path_exists env (path_join env d' name) = false) →
  first_existing env name (pre ++ d :: post) = Some (path_join env d name).
Proof.
  intros Hd Hex. induction pre as [|d' pre IH]; intros Hpre; simpl.
  - apply truthy_true in Hd. by rewrite Hd, Hex.
  - assert (Hrest : first_existing env name (pre ++ d :: post)
                    = Some (path_join env d name)).
    { apply IH. intros d'' Hd''. apply Hpre. by right. }
    destruct (Hpre d') as [->|Hno]; [left|done|].
    + by rewrite Hno; destruct (truthy d').
Qed.

(** X13: where the data file exists in a directory of the search order and in
    no non-empty directory before it, [load_dishes] reads that file: it
    returns the records bound to [dishes] by the file, all of them and in
    their order, the empty catalog where the file binds no [dishes], and it
    raises what reading or executing the file raises. *)
Theorem load_dishes_reads_first_file (env : Env) (pre post : list pystr) (d : pystr) :
  search_order env = pre ++ d :: post →
  d ≠ [] →
  path_join env d (py "dishes.txt") ≠ [] →
  path_exists env (path_join env d (py "dishes.txt")) = true →
  (∀ d', d' ∈ pre →
         d' = [] ∨ path_exists env (path_join env d' (py "dishes.txt")) = false) →
  let path := path_join env d (py "dishes.txt") in
  (∀ content dishes,
      read_text env path = Ok content →
      exec_content env content = Ok (Some dishes) →
      load_dishes env = Ok dishes)
  ∧ (∀ content,
      read_text env path = Ok content →
      exec_content env content = Ok None →
      load_dishes env = Ok [])
  ∧ (∀ e, read_text env path = Raise e → load_dishes env = Raise e)
  ∧ (∀ content e,
      read_text env path = Ok content →
      exec_content env content = Raise e →
      load_dishes env = Raise e).
Proof.
  intros Horder Hd Hpath Hex Hpre path.
  assert (Hload : load_dishes env
                  = (content ← read_text env path;
                     dishes ← exec_content env content;
                     mret (pd_DataFrame (default [] dishes)))).
  { apply load_dishes_found; [|done].
    rewrite find_resource_search_order, Horder. by apply first_existing_first. }
  rewrite Hload. split_and!.
  - intros content dishes -> . simpl. by intros ->.
  - intros content ->. simpl. by intros ->.
  - by intros e ->.
  - intros content e ->. simpl. by intros ->.
Qed.

Lemma load_dishes_reads_first_file_witness :
  let rice := tagged (CSeq [EStr (py "rice")]) in
  let soup := tagged (CSeq [EStr (py "soup")]) in
  let env := script_env [py "/home/user/dishes.txt"] (py "dishes = [...]")
                        (Ok (Some [rice; soup])) in
  load_dishes env = Ok [rice; soup].
Proof.
  intros rice soup env.
  refine (proj1 (load_dishes_reads_first_file env [py "/app"] [] (py "/home/user")
                   _ _ _ _ _) (py "dishes = [...]") [rice; soup] _ _).
  - reflexivity.
  - discriminate.
  - vm_compute. discriminate.
  - vm_compute. reflexivity.
  - intros d' Hd'. apply elem_of_cons in Hd' as [->|Hd'].
    + right. vm_compute. reflexivity.
    + by apply elem_of_nil in Hd'.
  - vm_compute. reflexivity.
  - vm_compute. reflexivity.
Defined.

(** X14: the second look of [load_dishes] into the script directory never
    finds a file that [_find_resource] has missed, unless that directory is
    the empty string: where [_find_resource] returns nothing and the script
    directory is not empty (or [__file__] is not set), [load_dishes] returns
    the empty catalog. *)
Theorem load_dishes_fallback_idle (env : Env) :
  _find_resource env (py "dishes.txt") = None →
  (∀ d, file_dir env = Ok d → d ≠ []) →
  load_dishes env = Ok (pd_DataFrame []).
Proof.
  intros Hfind Hdir. unfold load_dishes. rewrite Hfind.
  destruct (file_dir env) as [base_dir|e] eqn:Hfile; [|done].
  rewrite find_resource_search_order in Hfind.
  pose proof (first_existing_spec env (py "dishes.txt") (search_order env)) as Hspec.
  rewrite Hfind in Hspec.
  destruct (Hspec base_dir) as [->|Hno].
  - unfold search_order, program_dirs. rewrite Hfile.
    rewrite !elem_of_app. right. left. right. apply list_elem_of_here.
  - by destruct (Hdir [] eq_refl).
  - by rewrite Hno.
Qed.

Lemma load_dishes_fallback_idle_witness :
  _find_resource no_files (py "dishes.txt") = None
  ∧ (∀ d, file_dir no_files = Ok d → d ≠ [])
  ∧ load_dishes no_files = Ok (pd_DataFrame []).
Proof.
  assert (Hfind : _find_resource no_files (py "dishes.txt") = None) by reflexivity.
  assert (Hdir : ∀ d, file_dir no_files = Ok d → d ≠ []).
  { intros d [= <-]. discriminate. }
  split; [exact Hfind|]. split; [exact Hdir|].
  exact (load_dishes_fallback_idle no_files Hfind Hdir).
Defined.

(** X15: [on_load] changes the window only when the chosen file is read and
    executed without an exception and binds [dishes]: then the catalog is
    replaced by the records of the file, the tag list is rebuilt from it and
    the status reports the number of records, the table staying as it was.
    A cancelled dialog does nothing; a file that cannot be read, raises, or
    binds no [dishes] (a [KeyError], where [load_dishes] would return the
    empty catalog) gives the error box and leaves the window as it was. *)
Theorem on_load_replaces_or_keeps `{U : Unicode} (env : Env) (self : Gui) (path : pystr) :
  match on_load env self path with
  | (shown, Some box) =>
      shown = self ∧ path ≠ []
      ∧ ∃ e, box = LoadFileFailed e
             ∧ (read_text env path = Raise e
                ∨ ∃ content, read_text env path = Ok content
                   ∧ (exec_content env content = Raise e
                      ∨ (exec_content env content = Ok None
                         ∧ e = KeyError (py "dishes"))))
  | (shown, None) =>
      (path = [] ∧ shown = self)
      ∨ ∃ content dishes,
          read_text env path = Ok content
          ∧ exec_content env content = Ok (Some dishes)
          ∧ checkpoint (window shown) = Some dishes
          ∧ _tag_list (window shown) = tag_list (Some dishes)
          ∧ status_label shown = DataLoaded (List.length dishes)
          ∧ table shown = table self ∧ entry shown = entry self
  end.
Proof.
  unfold on_load. destruct (truthy path) eqn:Hpath; simpl.
  2:{ left. by apply truthy_false in Hpath. }
  apply truthy_true in Hpath.
  destruct (read_text env path) as [content|e] eqn:Hread; simpl.
  2:{ split_and!; try done. exists e. by split; [|left]. }
  destruct (exec_content env content) as [[dishes|]|e] eqn:Hexec; simpl.
  - right. exists content, dishes. by split_and!.
  - split_and!; try done. eexists. split; [done|]. right. exists content. auto.
  - split_and!; try done. exists e. split; [done|]. right. exists content. auto.
Qed.

(** ** The background image *)

(** X16: the path kept for the background image is either the path of an
    existing [background.png] in one of the candidate directories, or,
    whether it exists or not, the path in the script directory; looking it up
    raises only where [__file__] is not set. *)
Theorem bg_path_found_or_fallback (env : Env) :
  match _bg_path env with
  | Ok p =>
      (path_exists env p = true
       ∧ ∃ candidates d, bg_candidates env = Ok candidates ∧ d ∈ candidates
           ∧ d ≠ [] ∧ p = path_join env d (py "background.png"))
      ∨ ∃ script_dir, file_dir env = Ok script_dir
           ∧ p = path_join env script_dir (py "background.png")
  | Raise e => file_dir env = Raise e
  end.
Proof.
  unfold _bg_path.
  destruct (bg_candidates env) as [cands|e] eqn:Hcands; simpl.
  2:{ unfold bg_candidates in Hcands. destruct (frozen env); [done|].
      destruct (file_dir env); [done|]. simpl in Hcands. congruence. }
  pose proof (first_existing_spec env (py "background.png") cands) as Hspec.
  destruct (first_existing env (py "background.png") cands) as [found|].
  - destruct (truthy found).
    + left. destruct Hspec as (pre & d & post & -> & Hd & -> & Hex & _).
      split; [done|]. eexists _, d. split; [done|]. split; [|done].
      apply elem_of_app. right. left.
    + destruct (file_dir env) as [script_dir|e]; simpl; [|done]. right. eauto.
  - destruct (file_dir env) as [script_dir|e]; simpl; [|done]. right. eauto.
Qed.

(** ** Opacity *)

Lemma opacity_in_range_all : forallb opacity_in_range slider_values = true.
Proof. vm_compute. reflexivity. Qed.

Lemma opacity_antitone_all :
  forallb (λ v, forallb (opacity_antitone v) slider_values) slider_values = true.
Proof. vm_compute. reflexivity. Qed.

Lemma elem_of_slider_values (v : Z) : (0 ≤ v ≤ 100)%Z → In v slider_values.
Proof.
  intros Hv. unfold slider_values. apply in_map_iff.
  exists (Z.to_nat v). split; [lia|]. apply in_seq. lia.
Qed.

(** X17: for every value of the slider, from 0 to 100, the alpha channel
    computed for the overlay lies between 0 and 255 before it is clamped, so
    the clamping changes nothing; the alpha channel of the table is computed
    too, and lies between 0 and that of the overlay and below 154; the two
    style sheets are produced. *)
Theorem slider_opacity_in_range (v : Z) :
  (0 ≤ v ≤ 100)%Z →
  ∃ opa table : Z,
    opa_of_alpha (slider_alpha v) = Some opa
    ∧ overlay_opa (slider_alpha v) = Some opa
    ∧ table_opa (slider_alpha v) = Some table
    ∧ (0 ≤ opa ≤ 255)%Z ∧ (0 ≤ table ≤ opa)%Z ∧ (table ≤ 153)%Z
    ∧ is_Some (on_alpha_change v).
Proof.
  intros Hv. pose proof opacity_in_range_all as Hall.
  rewrite forallb_forall in Hall. specialize (Hall v (elem_of_slider_values v Hv)).
  unfold opacity_in_range in Hall. unfold on_alpha_change, _apply_opacity, _overlay_style.
  destruct (opa_of_alpha (slider_alpha v)) as [opa|]; [|done].
  destruct (overlay_opa (slider_alpha v)) as [overlay|]; [|done].
  destruct (table_opa (slider_alpha v)) as [table|]; [|done].
  repeat (apply andb_prop in Hall as [Hall ?]).
  assert (overlay = opa) as -> by lia.
  exists opa, table. split_and!; try done; lia.
Qed.

Lemma slider_opacity_in_range_witness :
  ∃ opa table : Z,
    opa_of_alpha (slider_alpha 80) = Some opa
    ∧ overlay_opa (slider_alpha 80) = Some opa
    ∧ table_opa (slider_alpha 80) = Some table
    ∧ (0 ≤ opa ≤ 255)%Z ∧ (0 ≤ table ≤ opa)%Z ∧ (table ≤ 153)%Z
    ∧ is_Some (on_alpha_change 80).
Proof. apply (slider_opacity_in_range 80). lia. Defined.

(** X18: moving the slider up never makes the overlay or the table more
    opaque: for slider values [v <= w] between 0 and 100, the alpha channels
    at [w] are at most those at [v]. *)
Theorem slider_opacity_antitone (v w : Z) :
  (0 ≤ v)%Z → (v ≤ w)%Z → (w ≤ 100)%Z →
  ∃ ov ow tv tw : Z,
    overlay_opa (slider_alpha v) = Some ov ∧ overlay_opa (slider_alpha w) = Some ow
    ∧ table_opa (slider_alpha v) = Some tv ∧ table_opa (slider_alpha w) = Some tw
    ∧ (ow ≤ ov)%Z ∧ (tw ≤ tv)%Z.
Proof.
  intros Hv Hvw Hw. pose proof opacity_antitone_all as Hall.
  rewrite forallb_forall in Hall.
  specialize (Hall v (elem_of_slider_values v ltac:(lia))).
  rewrite forallb_forall in Hall.
  specialize (Hall w (elem_of_slider_values w ltac:(lia))).
  unfold opacity_antitone in Hall.
  destruct (overlay_opa (slider_alpha v)) as [ov|]; [|done].
  destruct (overlay_opa (slider_alpha w)) as [ow|]; [|done].
  destruct (table_opa (slider_alpha v)) as [tv|]; [|done].
  destruct (table_opa (slider_alpha w)) as [tw|]; [|done].
  exists ov, ow, tv, tw.
  apply orb_prop in Hall as [Hall|Hall].
  - apply negb_true_iff in Hall. lia.
  - apply andb_prop in Hall as [? ?]. split_and!; try done; lia.
Qed.

Lemma slider_opacity_antitone_witness :
  ∃ ov ow tv tw : Z,
    overlay_opa (slider_alpha 30) = Some ov ∧ overlay_opa (slider_alpha 80) = Some ow
    ∧ table_opa (slider_alpha 30) = Some tv ∧ table_opa (slider_alpha 80) = Some tw
    ∧ (ow ≤ ov)%Z ∧ (tw ≤ tv)%Z.
Proof. apply (slider_opacity_antitone 30 80); lia. Defined.

(** ** Searching again, and larger catalogs *)

Lemma filter_filter_same {A} (f : A → bool) (l : list A) :
  List.filter f (List.filter f l) = List.filter f l.
Proof.
  induction l as [|x l IH]; simpl; [done|].
  destruct (f x) eqn:Hf; simpl; [|done]. by rewrite Hf, IH.
Qed.

Lemma raw_match_has_key (tag : pystr) (d : dish) :
  raw_match tag d → is_Some (d !! py "tags").
Proof.
  unfold raw_match, at_column. destruct (d !! py "tags") as [c|]; [eauto|done].
Qed.

(** X19: a search result that is not empty can be searched again: for the
    same tag the second search returns the result unchanged. *)
Theorem search_by_tag_again (env : Env) (tag : pystr) (df r : DataFrame) :
  search_by_tag env tag (Some df) = Ok r →
  r ≠ [] →
  search_by_tag env tag (Some r) = Ok r.
Proof.
  intros Hsearch Hne.
  destruct (decide (py "tags" ∈ columns df)) as [Hcol|Hcol].
  2:{ by rewrite search_by_tag_no_column in Hsearch. }
  rewrite search_by_tag_Some in Hsearch by done. injection Hsearch as <-.
  rewrite search_by_tag_Some; [by rewrite filter_filter_same|].
  destruct (List.filter _ df) as [|d r] eqn:Hr; [done|].
  assert (Hd : d ∈ List.filter (λ d, has_tag tag (at_column (py "tags") d)) df)
    by (rewrite Hr; left).
  apply elem_of_List_filter in Hd as [_ Hmatch].
  apply elem_of_columns. exists d. split; [left|].
  by apply (raw_match_has_key tag), has_tag_raw_match.
Qed.

Lemma search_by_tag_again_witness :
  let rice := tagged (CSeq [EStr (py "rice")]) in
  let soup := tagged (CSeq [EStr (py "soup")]) in
  search_by_tag no_files (py "soup") (Some [soup]) = Ok [soup].
Proof.
  intros rice soup.
  apply (search_by_tag_again no_files (py "soup") [rice; soup] [soup]).
  - vm_compute. reflexivity.
  - discriminate.
Defined.


